(** * The template compiler and renderer of [src/template.ts]

    A shallow embedding of [correctName], [compile], [loadComponent] and
    [templateRender].  JavaScript strings are [string] and objects are
    finite maps; the functions the file imports (scule, @vue/compiler-sfc,
    import-string, vue, @vue/server-renderer, vue-email, vue-i18n,
    kolorist) are the fields of the interface [Imports], each returning a
    value or raising; exceptions, the console, the calls made to those
    libraries, the application instances and the module-level constant
    live in an explicit world threaded by a small state-and-error monad. *)

From Stdlib Require Import Ascii String.
From stdpp Require Import base option list gmap strings.

(** ** String primitives of the host language *)

Module JsString.

(** [strip_prefix pat s] is the rest of [s] after [pat] when [s] starts
    with [pat]. *)
Fixpoint strip_prefix (pat s : string) : option string :=
  match pat, s with
  | EmptyString, _ => Some s
  | String _ _, EmptyString => None
  | String a pat', String b s' =>
      if Ascii.eqb a b then strip_prefix pat' s' else None
  end.

(** [String.prototype.replace] with a string pattern: only the first
    (leftmost) occurrence is replaced. *)
Fixpoint replace (pat rep s : string) : string :=
  match strip_prefix pat s with
  | Some rest => rep +:+ rest
  | None =>
      match s with
      | EmptyString => EmptyString
      | String c s' => String c (replace pat rep s')
      end
  end.

(** [String.prototype.replaceAll] with a one-character pattern. *)
Fixpoint replaceAll (c : ascii) (rep s : string) : string :=
  match s with
  | EmptyString => EmptyString
  | String a s' =>
      (if Ascii.eqb a c then rep else String a EmptyString)
        +:+ replaceAll c rep s'
  end.


(** [Array.prototype.join]. *)
Definition join (sep : string) (l : list string) : string :=
  String.concat sep l.

(** [occurs pat s]: [pat] is a substring of [s]. *)
Definition occurs (pat s : string) : Prop :=
  ∃ p q, s = p +:+ pat +:+ q.

(** [leftmost pat s p q]: [s] is [p ++ pat ++ q] and no occurrence of
    [pat] in [s] starts before position [length p]. *)
Definition leftmost (pat s p q : string) : Prop :=
  s = p +:+ pat +:+ q ∧
  ∀ p' q', s = p' +:+ pat +:+ q' → String.length p ≤ String.length p'.

Definition mem (c : ascii) (s : string) : Prop :=
  In c (list_ascii_of_string s).

End JsString.

(** ** Name normalisation *)

Section Normalizer.

(** [pascalCase] of the scule package. *)
Variable pascalCase : string → string.

(** [correctName], lines 110-112. *)
Definition correctName (name : string) : string :=
  pascalCase
    (JsString.replace ".vue" "" (JsString.replaceAll ":"%char "-" name)).


End Normalizer.

(** ** A reference instance of [pascalCase]

    An instance of the word-splitting PascalCase conversion on ASCII
    text, after scule's [splitByCase], [upperFirst] and [pascalCase]:
    words are cut at the splitter characters and at case edges, the first
    character of every word is upper-cased and the words are joined. *)

Module Scule.

Definition STR_SPLITTERS : list ascii := ["-"; "_"; "/"; "."]%char.

Definition isSplitter (c : ascii) : bool :=
  bool_decide (c ∈ STR_SPLITTERS).

Definition isDigit (c : ascii) : bool :=
  let n := nat_of_ascii c in (48 <=? n) && (n <=? 57).

Definition toLowerCase (c : ascii) : ascii :=
  let n := nat_of_ascii c in
  if (65 <=? n) && (n <=? 90) then ascii_of_nat (n + 32) else c.

Definition toUpperCase (c : ascii) : ascii :=
  let n := nat_of_ascii c in
  if (97 <=? n) && (n <=? 122) then ascii_of_nat (n - 32) else c.

(** [isUppercase]: undefined ([None]) on a digit, otherwise whether the
    character differs from its lower-case form. *)
Definition isUppercase (c : ascii) : option bool :=
  if isDigit c then None
  else Some (negb (Ascii.eqb c (toLowerCase c))).

(** The loop state of [splitByCase]. *)
Record split_state := {
  parts : list (list ascii);
  buff : list ascii;
  previousUpper : option bool;
  previousSplitter : option bool
}.

Definition split_init : split_state :=
  {| parts := []; buff := []; previousUpper := None;
     previousSplitter := None |}.

(** [buff.slice(0, buff.length - 1)] and the last character. *)
Definition all_but_last (b : list ascii) : list ascii :=
  take (length b - 1) b.

(** One iteration of the loop over the characters. *)
Definition split_step (st : split_state) (c : ascii) : split_state :=
  if isSplitter c then
    {| parts := parts st ++ [buff st]; buff := [];
       previousUpper := None;
       previousSplitter := previousSplitter st |}
  else
    let isUpper := isUppercase c in
    let normal :=
      {| parts := parts st; buff := buff st ++ [c];
         previousUpper := isUpper;
         previousSplitter := Some false |} in
    match previousSplitter st with
    | Some false =>
        match previousUpper st, isUpper, last (buff st) with
        | Some false, Some true, _ =>
            {| parts := parts st ++ [buff st]; buff := [c];
               previousUpper := isUpper;
               previousSplitter := previousSplitter st |}
        | Some true, Some false, Some lastChar =>
            if 1 <? length (buff st) then
              {| parts := parts st ++ [all_but_last (buff st)];
                 buff := [lastChar; c];
                 previousUpper := isUpper;
                 previousSplitter := previousSplitter st |}
            else normal
        | _, _, _ => normal
        end
    | _ => normal
    end.

Definition splitByCase (str : list ascii) : list (list ascii) :=
  match str with
  | [] => []
  | _ => let st := fold_left split_step str split_init in
         parts st ++ [buff st]
  end.

Definition upperFirst (str : list ascii) : list ascii :=
  match str with
  | [] => []
  | c :: rest => toUpperCase c :: rest
  end.

Definition pascalChars (str : list ascii) : list ascii :=
  concat (upperFirst <$> splitByCase str).

Definition pascalCase (str : string) : string :=
  string_of_list_ascii (pascalChars (list_ascii_of_string str)).

(** Invariants of the loop, used to show what the conversion keeps. *)





End Scule.

(** ** The same conversion on code points

    scule's [splitByCase], [upperFirst] and [pascalCase] once more, on
    the code points of UTF-8 text rather than on bytes, to follow the
    conversion on a letter outside ASCII.  The case mapping is that of
    [String.prototype.toUpperCase] and [toLowerCase] on the ASCII
    letters and on the letter DZ with caron in its three forms, upper
    case U+01C4, title case U+01C5 and lower case U+01C6; every other
    character is left as it is.  [buff.length] and [buff.at(-1)] count
    code points, which is what they count on text of the Basic
    Multilingual Plane. *)

Module SculeUnicode.

(** UTF-8: the code points of a sequence of bytes. A byte that starts no
    sequence, which the bytes of a JavaScript string never hold, reads
    as U+FFFD. *)
Fixpoint decode (bytes : list N) : list N :=
  match bytes with
  | [] => []
  | b :: rest =>
      if (b <? 128)%N then b :: decode rest
      else if ((192 <=? b) && (b <? 224))%N then
        match rest with
        | b2 :: rest2 => ((b - 192) * 64 + b2 mod 64)%N :: decode rest2
        | _ => [65533%N]
        end
      else if ((224 <=? b) && (b <? 240))%N then
        match rest with
        | b2 :: b3 :: rest3 =>
            ((b - 224) * 4096 + (b2 mod 64) * 64 + b3 mod 64)%N
              :: decode rest3
        | _ => [65533%N]
        end
      else if ((240 <=? b) && (b <? 248))%N then
        match rest with
        | b2 :: b3 :: b4 :: rest4 =>
            ((b - 240) * 262144 + (b2 mod 64) * 4096 + (b3 mod 64) * 64
             + b4 mod 64)%N :: decode rest4
        | _ => [65533%N]
        end
      else 65533%N :: decode rest
  end.

(** UTF-8: the bytes of one code point. *)
Definition encode_point (c : N) : list N :=
  if (c <? 128)%N then [c]
  else if (c <? 2048)%N then [192 + c / 64; 128 + c mod 64]%N
  else if (c <? 65536)%N then
    [224 + c / 4096; 128 + (c / 64) mod 64; 128 + c mod 64]%N
  else
    [240 + c / 262144; 128 + (c / 4096) mod 64; 128 + (c / 64) mod 64;
     128 + c mod 64]%N.

Definition points (s : string) : list N :=
  decode (N_of_ascii <$> list_ascii_of_string s).

Definition text (l : list N) : string :=
  string_of_list_ascii (ascii_of_N <$> (l ≫= encode_point)).

(** The splitters [-], [_], [/] and [.]. *)
Definition isSplitter (c : N) : bool :=
  bool_decide (c ∈ [45; 95; 47; 46]%N).

Definition isDigit (c : N) : bool := ((48 <=? c) && (c <=? 57))%N.

Definition toLowerCase (c : N) : N :=
  if ((65 <=? c) && (c <=? 90))%N then (c + 32)%N
  else if ((c =? 452) || (c =? 453))%N then 454%N
  else c.

Definition toUpperCase (c : N) : N :=
  if ((97 <=? c) && (c <=? 122))%N then (c - 32)%N
  else if ((c =? 453) || (c =? 454))%N then 452%N
  else c.

(** [isUppercase]: undefined ([None]) on a digit, otherwise whether the
    character differs from its lower-case form. *)
Definition isUppercase (c : N) : option bool :=
  if isDigit c then None else Some (negb (c =? toLowerCase c)%N).

Record split_state := {
  parts : list (list N);
  buff : list N;
  previousUpper : option bool;
  previousSplitter : option bool
}.

Definition split_init : split_state :=
  {| parts := []; buff := []; previousUpper := None;
     previousSplitter := None |}.

Definition split_step (st : split_state) (c : N) : split_state :=
  if isSplitter c then
    {| parts := parts st ++ [buff st]; buff := [];
       previousUpper := None;
       previousSplitter := previousSplitter st |}
  else
    let isUpper := isUppercase c in
    let normal :=
      {| parts := parts st; buff := buff st ++ [c];
         previousUpper := isUpper;
         previousSplitter := Some false |} in
    match previousSplitter st with
    | Some false =>
        match previousUpper st, isUpper, last (buff st) with
        | Some false, Some true, _ =>
            {| parts := parts st ++ [buff st]; buff := [c];
               previousUpper := isUpper;
               previousSplitter := previousSplitter st |}
        | Some true, Some false, Some lastChar =>
            if 1 <? length (buff st) then
              {| parts := parts st ++ [take (length (buff st) - 1) (buff st)];
                 buff := [lastChar; c];
                 previousUpper := isUpper;
                 previousSplitter := previousSplitter st |}
            else normal
        | _, _, _ => normal
        end
    | _ => normal
    end.

Definition splitByCase (str : list N) : list (list N) :=
  match str with
  | [] => []
  | _ => let st := fold_left split_step str split_init in
         parts st ++ [buff st]
  end.

Definition upperFirst (str : list N) : list N :=
  match str with
  | [] => []
  | c :: rest => toUpperCase c :: rest
  end.

Definition pascalCase (str : string) : string :=
  text (concat (upperFirst <$> splitByCase (points str))).

End SculeUnicode.

(** ** Values and types of the libraries *)

(** The primitives imported from vue-email (line 8). *)
Inductive primitive :=
| EBody | EHead | EHeading | EButton | EColumn | EContainer | EFont | EHr
| EHtml | EImg | ELink | EMarkdown | EPreview | ERow | ESection | ETailwind
| EText.

(** The values a component definition holds under its keys. *)
Inductive value :=
| VString (s : string)
| VCode (src : string)
| VPrimitives (lib : gmap string primitive).

(** A component definition is an object: a finite map from keys to
    values. *)
Abbreviation definition := (gmap string value).
Abbreviation Props := (gmap string string).
Abbreviation Messages := (gmap string (gmap string string)).
Abbreviation BindingMetadata := (gmap string string).

(** What a collaborator or this file throws. *)
Inductive exn :=
| Error (message : string)
| Thrown (what : string).

Inductive outcome (A : Type) :=
| Returned (a : A)
| Raised (e : exn).
Arguments Returned {A} a.
Arguments Raised {A} e.

(** Blocks and options of @vue/compiler-sfc. *)
Record SFCTemplateBlock := { template_content : string }.

Record SFCScriptBlock := {
  script_content : string;
  script_bindings : BindingMetadata
}.

Record SFCStyleBlock := {
  style_content : string;
  style_scoped : bool
}.

Record SFCDescriptor := {
  descriptor_filename : string;
  descriptor_template : option SFCTemplateBlock;
  descriptor_script : option SFCScriptBlock;
  descriptor_scriptSetup : option SFCScriptBlock;
  descriptor_styles : list SFCStyleBlock
}.

Record SFCParseResult := {
  descriptor : SFCDescriptor;
  errors : list string
}.

Record SFCScriptCompileOptions := {
  script_id : string;
  genDefaultAs : string
}.

Record SFCStyleCompileOptions := {
  style_id : string;
  style_filename : string;
  style_source : string;
  scoped : bool
}.

Record SFCTemplateCompileOptions := {
  template_filename : string;
  template_id : string;
  template_source : string;
  bindingMetadata : option BindingMetadata
}.

Record SFCStyleCompileResults := { style_code : string }.
Record SFCTemplateCompileResults := { template_code : string }.

(** Modelled from the spec: the localisation settings of [./types] and
    vue-email, [{ defaultLocale?, translations? }]. *)
Record I18n := {
  defaultLocale : option string;
  translations : option Messages
}.

(** Modelled from the spec: [RenderOptions] of [./types],
    [{ props?, i18n? }]. *)
Record RenderOptions := {
  render_props : option Props;
  render_i18n : option I18n
}.

(** Modelled from the spec: the plugin-wide settings held by
    [config.options], [{ props?, i18n?, ...other settings }]. *)
Record PluginOptions := {
  plugin_props : option Props;
  plugin_i18n : option I18n;
  plugin_other : list (string * string)
}.

(** Modelled from the spec: [Options] of [./types],
    [{ verbose?, options? }]. *)
Record Options := {
  config_verbose : option bool;
  config_options : option PluginOptions
}.

(** Modelled from the spec: one entry of [code.components],
    [{ name, source }]. *)
Record EmailComponent := {
  component_name : string;
  component_source : string
}.

(** Modelled from the spec: [SourceOptions] of [./types],
    [{ source, components? }]. *)
Record SourceOptions := {
  code_source : string;
  code_components : option (list EmailComponent)
}.

(** The options handed to [createI18n] (lines 78-85). *)
Record I18nEngineOptions := {
  locale : string;
  fallbackLocale : string;
  messages : option Messages;
  silentFallbackWarn : bool;
  silentTranslationWarn : bool;
  warnHtmlInMessage : string
}.

(** ** The application host *)

(** An application instance of vue: the root component and its
    properties, the configuration flag this file sets, the mapping in
    which [app.component] registers definitions, and what plugins
    provide. *)
Record app := {
  app_root : definition;
  app_props : option Props;
  app_performance : bool;
  app_components : gmap string definition;
  app_provides : list string
}.

(** A plugin is what [app.use] runs on the instance. *)
Abbreviation plugin := (app → outcome app).

(** ** The world: console, calls to the libraries, instances, module state

    [console] holds what the statements of this file write with
    [console.warn] and [console.error]; what an imported library writes
    on its own is not recorded. *)

Inductive console_entry :=
| Warn (line : string)
| ConsoleError (label : string) (error : exn).

Inductive call :=
| CallParse (source filename : string)
| CallCompileScript (d : SFCDescriptor) (o : SFCScriptCompileOptions)
| CallCompileStyle (o : SFCStyleCompileOptions)
| CallCompileTemplate (o : SFCTemplateCompileOptions)
| CallImportModule (code : string)
| CallCreateApp (root : definition) (props : option Props)
| CallUseVueEmail (instance : nat) (o : option PluginOptions)
| CallCreateI18n (o : I18nEngineOptions)
| CallUseI18n (instance : nat)
| CallRenderToString (instance : nat)
| CallCleanup (markup : string).

Record world := {
  console : list console_entry;
  calls : list call;
  apps : list app;
  module_components : gmap string primitive
}.

(** The module-level constant [components] (lines 14-32). *)
Definition components : gmap string primitive :=
  list_to_map
    [("EBody", EBody); ("EHead", EHead); ("EHeading", EHeading);
     ("EButton", EButton); ("EColumn", EColumn);
     ("EContainer", EContainer); ("EFont", EFont); ("EHr", EHr);
     ("EHtml", EHtml); ("EImg", EImg); ("ELink", ELink);
     ("EMarkdown", EMarkdown); ("EPreview", EPreview); ("ERow", ERow);
     ("ESection", ESection); ("ETailwind", ETailwind); ("EText", EText)].

(** The world once the module is loaded. *)
Definition loaded_world : world :=
  {| console := []; calls := []; apps := [];
     module_components := components |}.

(** ** The monad of effects: state and exceptions *)

Definition M (A : Type) : Type := world → outcome A * world.

Definition ret {A} (a : A) : M A := fun w => (Returned a, w).

Definition bind {A B} (m : M A) (k : A → M B) : M B :=
  fun w =>
    match m w with
    | (Returned a, w') => k a w'
    | (Raised e, w') => (Raised e, w')
    end.

Definition throw {A} (e : exn) : M A := fun w => (Raised e, w).

(** [try { m } catch (error) { handler error }]. *)
Definition try_catch {A} (m : M A) (handler : exn → M A) : M A :=
  fun w =>
    match m w with
    | (Returned a, w') => (Returned a, w')
    | (Raised e, w') => handler e w'
    end.

Declare Scope effect_scope.
Delimit Scope effect_scope with effect.
Notation "'let*' x := m 'in' k" := (bind m (fun x => k))
  (at level 10, x name, m at level 100, k at level 200) : effect_scope.
Notation "m ;;; k" := (bind m (fun _ => k))
  (at level 100, k at level 200, right associativity) : effect_scope.
Local Open Scope effect_scope.

Definition when (b : bool) (m : M unit) : M unit :=
  if b then m else ret tt.

Definition log (entry : console_entry) : M unit :=
  fun w =>
    (Returned tt,
     {| console := console w ++ [entry]; calls := calls w;
        apps := apps w; module_components := module_components w |}).

Definition console_warn (line : string) : M unit := log (Warn line).

Definition console_error (label : string) (error : exn) : M unit :=
  log (ConsoleError label error).

(** A call to a library: it is recorded, and its outcome is a value or an
    exception. *)
Definition invoke {A} (c : call) (result : outcome A) : M A :=
  fun w =>
    (result,
     {| console := console w; calls := calls w ++ [c];
        apps := apps w; module_components := module_components w |}).

(** Reading the module-level [components]. *)
Definition read_components : M (gmap string primitive) :=
  fun w => (Returned (module_components w), w).

Definition set_apps (w : world) (l : list app) : world :=
  {| console := console w; calls := calls w; apps := l;
     module_components := module_components w |}.

(** The instance handed back by [createApp] takes the next free place
    among the instances; the place is what the rest of the call holds. *)
Definition allocate (instance : app) : M nat :=
  fun w =>
    (Returned (length (apps w)), set_apps w (apps w ++ [instance])).

(** An update of the instance [id] in place. *)
Definition update_app (id : nat) (f : app → outcome app) : M unit :=
  fun w =>
    match apps w !! id with
    | Some a =>
        match f a with
        | Returned a' => (Returned tt, set_apps w (<[id := a']> (apps w)))
        | Raised e => (Raised e, w)
        end
    | None => (Raised (Thrown "TypeError"), w)
    end.

(** [app.config.performance = flag]. *)
Definition set_performance (id : nat) (flag : bool) : M unit :=
  update_app id (fun a =>
    Returned
      {| app_root := app_root a; app_props := app_props a;
         app_performance := flag; app_components := app_components a;
         app_provides := app_provides a |}).

(** [app.component(name, component)]: the definition is stored under its
    name in the instance's mapping. *)
Definition app_component (id : nat) (name : string) (d : definition)
  : M unit :=
  update_app id (fun a =>
    Returned
      {| app_root := app_root a; app_props := app_props a;
         app_performance := app_performance a;
         app_components := <[name := d]> (app_components a);
         app_provides := app_provides a |}).

(** [app.use(plugin)]. *)
Definition app_use (id : nat) (p : plugin) : M unit := update_app id p.

(** ** The imports of the file *)

(** What [src/template.ts] imports and calls, as an interface: each
    function returns a value or raises. *)
Record Imports := {
  (* scule *)
  pascalCase : string → string;
  (* @vue/compiler-sfc *)
  parse : string → string → outcome SFCParseResult;
  compileScript :
    SFCDescriptor → SFCScriptCompileOptions → outcome SFCScriptBlock;
  compileStyle : SFCStyleCompileOptions → outcome SFCStyleCompileResults;
  compileTemplate :
    SFCTemplateCompileOptions → outcome SFCTemplateCompileResults;
  (* import-string: the default export of the evaluated module, if any *)
  importModule : string → outcome (option definition);
  (* vue *)
  createApp : definition → option Props → outcome app;
  (* vue-email *)
  VueEmailPlugin : option PluginOptions → plugin;
  cleanup : string → outcome string;
  (* vue-i18n *)
  createI18n : I18nEngineOptions → outcome plugin;
  (* @vue/server-renderer *)
  renderToString : app → outcome string;
  (* kolorist *)
  lightGreen : string → string;
  bold : string → string;
  blue : string → string;
  red : string → string;
  white : string → string
}.

(** ** Text helpers *)

Definition newline : string := String (ascii_of_nat 10) EmptyString.
Definition dquote : string := String (ascii_of_nat 34) EmptyString.
Definition backtick : string := String (ascii_of_nat 96) EmptyString.
Definition backslash : string := String (ascii_of_nat 92) EmptyString.

Definition hex_digit (n : nat) : ascii :=
  if n <? 10 then ascii_of_nat (48 + n) else ascii_of_nat (87 + n).

(** The escape [JSON.stringify] writes for one character of a string. *)
Definition json_escape (c : ascii) : string :=
  let n := nat_of_ascii c in
  if n =? 34 then backslash +:+ dquote
  else if n =? 92 then backslash +:+ backslash
  else if n =? 8 then backslash +:+ "b"
  else if n =? 12 then backslash +:+ "f"
  else if n =? 10 then backslash +:+ "n"
  else if n =? 13 then backslash +:+ "r"
  else if n =? 9 then backslash +:+ "t"
  else if n <? 32 then
    backslash +:+ "u00" +:+
    String (hex_digit (n / 16)) (String (hex_digit (n mod 16)) EmptyString)
  else String c EmptyString.

Fixpoint json_escape_all (s : string) : string :=
  match s with
  | EmptyString => EmptyString
  | String c s' => json_escape c +:+ json_escape_all s'
  end.

(** [JSON.stringify] on a string. *)
Definition JSON_stringify (s : string) : string :=
  dquote +:+ json_escape_all s +:+ dquote.

(** ** The source compiler *)

Definition scriptIdentifier : string := "_sfc_main".

(** The module body assembled at lines 171-179. *)
Definition output (template : SFCTemplateCompileResults)
    (script : option SFCScriptBlock)
    (styles : option SFCStyleCompileResults)
    (descriptor : SFCDescriptor) : string :=
  newline +:+ "  " +:+ template_code template +:+ newline +:+
  newline +:+ "  " +:+
    (match script with Some s => script_content s | None => "" end) +:+
  newline +:+ "  " +:+
    (match styles with
     | Some st => "const styles = " +:+ backtick +:+ style_code st +:+ backtick
     | None => ""
     end) +:+
  newline +:+ "  " +:+
    (match script with
     | Some _ => scriptIdentifier +:+ ".render = render"
     | None => "const " +:+ scriptIdentifier +:+ " = { render }"
     end) +:+
  newline +:+ "  " +:+
    (match styles with
     | Some _ => scriptIdentifier +:+ ".style = styles"
     | None => ""
     end) +:+
  newline +:+ "  " +:+
    scriptIdentifier +:+ ".__file = " +:+
    JSON_stringify (descriptor_filename descriptor) +:+
  newline +:+ "  " +:+
    (match script with
     | Some _ => "export default " +:+ scriptIdentifier
     | None => "export default { render }"
     end) +:+
  newline +:+ "  ".

(** Optional chaining [o?.field], written [o ?: field], on a field that
    may itself be missing. *)
Definition chain {A B} (o : option A) (field : A → option B) : option B :=
  match o with
  | Some a => field a
  | None => None
  end.
Infix "?:" := chain (at level 50, left associativity).

Section Pipeline.

Variable lib : Imports.

Definition compiling_notice (filename : string) : string :=
  lightGreen lib "🚧" +:+ " " +:+ bold lib (blue lib "Compiling") +:+ " "
  +:+ bold lib (lightGreen lib filename) +:+ " "
  +:+ bold lib (blue lib "file").

(** [compile], lines 129-182. *)
Definition compile (filename source : string) (verbose : bool) : M string :=
  when verbose (console_warn (compiling_notice filename)) ;;;
  let* parsed := invoke (CallParse source filename)
                        (parse lib source filename) in
  let descriptor := descriptor parsed in
  if negb (bool_decide (errors parsed = [])) then
    throw (Error (JsString.join newline (errors parsed)))
  else
    let* script :=
      (if bool_decide (is_Some (descriptor_script descriptor))
          || bool_decide (is_Some (descriptor_scriptSetup descriptor))
       then
         let o := {| script_id := descriptor_filename descriptor;
                     genDefaultAs := scriptIdentifier |} in
         let* s := invoke (CallCompileScript descriptor o)
                          (compileScript lib descriptor o) in
         ret (Some s)
       else ret None) in
    let* styles :=
      (match descriptor_styles descriptor with
       | first :: _ =>
           let o := {| style_id := descriptor_filename descriptor;
                       style_filename := filename;
                       style_source := style_content first;
                       scoped := existsb style_scoped
                                   (descriptor_styles descriptor) |} in
           let* st := invoke (CallCompileStyle o) (compileStyle lib o) in
           ret (Some st)
       | [] => ret None
       end) in
    let* template :=
      (match descriptor_template descriptor with
       | Some t =>
           let o := {| template_filename := filename;
                       template_id := descriptor_filename descriptor;
                       template_source := template_content t;
                       bindingMetadata := script_bindings <$> script |} in
           invoke (CallCompileTemplate o) (compileTemplate lib o)
       | None => throw (Thrown "TypeError")
       end) in
    ret (output template script styles descriptor).

(** [loadComponent], lines 114-127. *)
Definition loadComponent (name source : string) (verbose : bool)
  : M (option definition) :=
  try_catch
    (let name := correctName (pascalCase lib) name in
     let* compiledComponent := compile name source verbose in
     let* componentCode :=
       invoke (CallImportModule compiledComponent)
              (importModule lib compiledComponent) in
     ret componentCode)
    (fun error =>
       console_error "Error loading component" error ;;;
       ret None).

(** *** The render orchestrator *)

(** Truthiness of an optional string and of an optional object. *)
Definition truthy_string (o : option string) : bool :=
  match o with
  | Some s => negb (String.eqb s "")
  | None => false
  end.

Definition truthy_object {A} (o : option A) : bool :=
  bool_decide (is_Some o).

(** [a || b] on optional strings and on optional objects. *)
Definition or_string (a b : option string) : option string :=
  if truthy_string a then a else b.

Definition or_object {A} (a b : option A) : option A :=
  if truthy_object a then a else b.

(** The four fields read at lines 37 and 68-69. *)
Definition call_defaultLocale (options : option RenderOptions)
  : option string :=
  options ?: render_i18n ?: defaultLocale.

Definition config_defaultLocale (config : option Options) : option string :=
  config ?: config_options ?: plugin_i18n ?: defaultLocale.

Definition call_translations (options : option RenderOptions)
  : option Messages :=
  options ?: render_i18n ?: translations.

Definition config_translations (config : option Options)
  : option Messages :=
  config ?: config_options ?: plugin_i18n ?: translations.

(** [hasI18n], line 37, as the truth value the tests at line 66 read. *)
Definition hasI18n (options : option RenderOptions)
    (config : option Options) : bool :=
  truthy_string (call_defaultLocale options)
  || truthy_string (config_defaultLocale config)
  || truthy_object (call_translations options)
  || truthy_object (config_translations config).

(** [i18nOptions.defaultLocale], line 68. *)
Definition resolved_locale (options : option RenderOptions)
    (config : option Options) : string :=
  default "en"
    (or_string
       (or_string (call_defaultLocale options) (config_defaultLocale config))
       (Some "en")).

(** [i18nOptions.translations], line 69. *)
Definition resolved_translations (options : option RenderOptions)
    (config : option Options) : option Messages :=
  or_object (call_translations options) (config_translations config).

Definition doctype : string :=
  "<!DOCTYPE html PUBLIC " +:+ dquote +:+
  "-//W3C//DTD XHTML 1.0 Transitional//EN" +:+ dquote +:+ " " +:+ dquote +:+
  "http://www.w3.org/TR/xhtml1/DTD/xhtml1-transitional.dtd" +:+ dquote +:+
  ">".

Definition missing_i18n_message : string :=
  lightGreen lib "❌" +:+ " " +:+
  bold lib (red lib "Missing vue-i18n dependency") +:+ " " +:+
  white lib "please install it using: " +:+ " " +:+
  bold lib (white lib "npm i vue-i18n@9").

(** The loop of lines 54-63 over [code.components]. *)
Fixpoint register_components (instance : nat) (verbose : bool)
    (entries : list EmailComponent) : M unit :=
  match entries with
  | [] => ret tt
  | emailComponent :: rest =>
      let componentName :=
        correctName (pascalCase lib) (component_name emailComponent) in
      let* componentCode :=
        loadComponent componentName (component_source emailComponent)
          verbose in
      (match componentCode with
       | Some componentCode =>
           let* components := read_components in
           app_component instance componentName
             (<["components" := VPrimitives components]> componentCode)
       | None => ret tt
       end) ;;;
      register_components instance verbose rest
  end.

(** Lines 66-93. *)
Definition install_i18n (instance : nat) (verbose : bool)
    (options : option RenderOptions) (config : option Options) : M unit :=
  if hasI18n options config then
    let i18nOptions_defaultLocale := resolved_locale options config in
    let i18nOptions_translations := resolved_translations options config in
    let locale := i18nOptions_defaultLocale in
    if truthy_string (Some locale) then
      when verbose
        (console_warn
           (lightGreen lib "🌎" +:+ " "
            +:+ bold lib (blue lib "Injecting translations"))) ;;;
      try_catch
        (let o := {| locale := locale;
                     fallbackLocale := i18nOptions_defaultLocale;
                     messages := i18nOptions_translations;
                     silentFallbackWarn := negb verbose;
                     silentTranslationWarn := negb verbose;
                     warnHtmlInMessage := "off" |} in
         let* i18n := invoke (CallCreateI18n o) (createI18n lib o) in
         invoke (CallUseI18n instance) (Returned tt) ;;;
         app_use instance i18n)
        (fun _ => throw (Error missing_i18n_message))
    else ret tt
  else ret tt.

(** [renderToString(app)], line 98: the serialisation reads the
    instance. *)
Definition serialize (instance : nat) : M string :=
  fun w =>
    match apps w !! instance with
    | Some a =>
        invoke (CallRenderToString instance) (renderToString lib a) w
    | None => (Raised (Thrown "TypeError"), w)
    end.

(** The [try] block of [templateRender], lines 36-102. *)
Definition templateRender_try (name : string) (code : SourceOptions)
    (options : option RenderOptions) (config : option Options) : M string :=
  let verbose := default false (config ?: config_verbose) in
  let props :=
    or_object (options ?: render_props)
              (config ?: config_options ?: plugin_props) in
  let name := correctName (pascalCase lib) name in
  let* component := loadComponent name (code_source code) verbose in
  when verbose
    (console_warn
       (lightGreen lib "💌" +:+ " "
        +:+ bold lib (blue lib "Generating output"))) ;;;
  match component with
  | None => throw (Error ("Component " +:+ name +:+ " not found"))
  | Some component =>
      let* instance := invoke (CallCreateApp component props)
                              (createApp lib component props) in
      let* app := allocate instance in
      invoke (CallUseVueEmail app (config ?: config_options))
             (Returned tt) ;;;
      app_use app (VueEmailPlugin lib (config ?: config_options)) ;;;
      set_performance app true ;;;
      (match code_components code with
       | Some (first :: rest) =>
           register_components app verbose (first :: rest)
       | _ => ret tt
       end) ;;;
      install_i18n app verbose options config ;;;
      when verbose
        (console_warn
           (lightGreen lib "🎉" +:+ " "
            +:+ bold lib (blue lib "Rendering template") +:+ " "
            +:+ bold lib (lightGreen lib name))) ;;;
      let* rendered := serialize app in
      let* cleaned := invoke (CallCleanup rendered) (cleanup lib rendered) in
      ret (doctype +:+ cleaned)
  end.

(** [templateRender], lines 34-108. *)
Definition templateRender (name : string) (code : SourceOptions)
    (options : option RenderOptions) (config : option Options) : M string :=
  try_catch (templateRender_try name code options config)
    (fun error =>
       console_error "Error rendering template" error ;;;
       ret "").

(** What [loadComponent] hands back for a name and a source: it reads
    nothing of the world, so the world once loaded serves. *)
Definition loaded (name source : string) (verbose : bool)
  : option definition :=
  match fst (loadComponent name source verbose loaded_world) with
  | Returned componentCode => componentCode
  | Raised _ => None
  end.

End Pipeline.

(** ** Reading the fused module body

    The body assembled by [compile] is a sequence of seven statements.
    [fused_statements] names them, [module_text] lays them out as the
    template literal does, and [run_module] gives what evaluating them
    binds and exports. *)

Inductive statement :=
| RenderFunction (code : string)
| ScriptBody (content : string)
| ConstStyles (css : string)
| AssignRender
| ConstMain
| AssignStyle
| AssignFile (filename : string)
| ExportMain
| ExportFresh
| Blank.

Definition statement_text (s : statement) : string :=
  match s with
  | RenderFunction code => code +:+ newline
  | ScriptBody content => content
  | ConstStyles css => "const styles = " +:+ backtick +:+ css +:+ backtick
  | AssignRender => scriptIdentifier +:+ ".render = render"
  | ConstMain => "const " +:+ scriptIdentifier +:+ " = { render }"
  | AssignStyle => scriptIdentifier +:+ ".style = styles"
  | AssignFile filename =>
      scriptIdentifier +:+ ".__file = " +:+ JSON_stringify filename
  | ExportMain => "export default " +:+ scriptIdentifier
  | ExportFresh => "export default { render }"
  | Blank => ""
  end.

Definition module_text (body : list statement) : string :=
  foldr (fun s rest => newline +:+ "  " +:+ statement_text s +:+ rest)
        (newline +:+ "  ") body.

Definition fused_statements (template : SFCTemplateCompileResults)
    (script : option SFCScriptBlock)
    (styles : option SFCStyleCompileResults)
    (descriptor : SFCDescriptor) : list statement :=
  [ RenderFunction (template_code template);
    match script with Some s => ScriptBody (script_content s) | None => Blank end;
    match styles with Some st => ConstStyles (style_code st) | None => Blank end;
    match script with Some _ => AssignRender | None => ConstMain end;
    match styles with Some _ => AssignStyle | None => Blank end;
    AssignFile (descriptor_filename descriptor);
    match script with Some _ => ExportMain | None => ExportFresh end ].

(** The bindings of the module scope while its body is evaluated, and
    its default export. *)
Record module_scope := {
  binding_render : option value;
  binding_main : option definition;
  binding_styles : option string;
  default_export : option definition
}.

Definition empty_scope : module_scope :=
  {| binding_render := None; binding_main := None;
     binding_styles := None; default_export := None |}.

Definition set_main (sc : module_scope) (o : definition) : module_scope :=
  {| binding_render := binding_render sc; binding_main := Some o;
     binding_styles := binding_styles sc;
     default_export := default_export sc |}.

(** One statement; [None] when it refers to a binding that is not there.
    [script_default content] is the object the compiled script binds to
    the internal symbol.  The pasted texts are not read: they are taken
    to be well-formed blocks that declare none of [render], [styles] and
    the internal symbol besides what is said here, and a style text
    without backtick or interpolation. *)
Definition run_statement (script_default : string → definition)
    (sc : module_scope) (s : statement) : option module_scope :=
  match s with
  | RenderFunction code =>
      Some {| binding_render := Some (VCode code);
              binding_main := binding_main sc;
              binding_styles := binding_styles sc;
              default_export := default_export sc |}
  | ScriptBody content => Some (set_main sc (script_default content))
  | ConstStyles css =>
      Some {| binding_render := binding_render sc;
              binding_main := binding_main sc;
              binding_styles := Some css;
              default_export := default_export sc |}
  | AssignRender =>
      match binding_main sc, binding_render sc with
      | Some o, Some r => Some (set_main sc (<["render" := r]> o))
      | _, _ => None
      end
  | ConstMain =>
      match binding_render sc with
      | Some r => Some (set_main sc {["render" := r]})
      | None => None
      end
  | AssignStyle =>
      match binding_main sc, binding_styles sc with
      | Some o, Some css =>
          Some (set_main sc (<["style" := VString css]> o))
      | _, _ => None
      end
  | AssignFile filename =>
      match binding_main sc with
      | Some o => Some (set_main sc (<["__file" := VString filename]> o))
      | None => None
      end
  | ExportMain =>
      match binding_main sc with
      | Some o =>
          Some {| binding_render := binding_render sc;
                  binding_main := binding_main sc;
                  binding_styles := binding_styles sc;
                  default_export := Some o |}
      | None => None
      end
  | ExportFresh =>
      match binding_render sc with
      | Some r =>
          Some {| binding_render := binding_render sc;
                  binding_main := binding_main sc;
                  binding_styles := binding_styles sc;
                  default_export := Some {["render" := r]} |}
      | None => None
      end
  | Blank => Some sc
  end.

Fixpoint run_module (script_default : string → definition)
    (sc : module_scope) (body : list statement) : option module_scope :=
  match body with
  | [] => Some sc
  | s :: rest =>
      match run_statement script_default sc s with
      | Some sc' => run_module script_default sc' rest
      | None => None
      end
  end.

(** ** Notions used to state the properties *)

(** [local m r]: in every world [m] has the outcome [r], and it leaves
    the instances and the module-level mapping as they were. *)
Definition local {A} (m : M A) (r : outcome A) : Prop :=
  ∀ w, fst (m w) = r
       ∧ apps (snd (m w)) = apps w
       ∧ module_components (snd (m w)) = module_components w.

Definition is_local {A} (m : M A) : Prop := ∃ r, local m r.

(** Two worlds with the same module-level mapping. *)
Definition same_module (w1 w2 : world) : Prop :=
  module_components w1 = module_components w2.

(** Two worlds with the same module-level mapping in which the instance
    [i] of the first is the instance [j] of the second. *)
Definition agree (i j : nat) (w1 w2 : world) : Prop :=
  module_components w1 = module_components w2
  ∧ apps w1 !! i = apps w2 !! j.

(** [respects R m1 m2]: from worlds related by [R], [m1] and [m2] have
    the same outcome and end in worlds related by [R]. *)
Definition respects (R : world → world → Prop) {A} (m1 m2 : M A) : Prop :=
  ∀ w1 w2, R w1 w2 →
    fst (m1 w1) = fst (m2 w2) ∧ R (snd (m1 w1)) (snd (m2 w2)).

(** A relation that looks at neither the console nor the calls, and
    relates only worlds with the same module-level mapping. *)
Class Observation (R : world → world → Prop) : Prop := {
  observation_silent :
    ∀ w1 w2 co1 ca1 co2 ca2, R w1 w2 →
      R {| console := co1; calls := ca1; apps := apps w1;
           module_components := module_components w1 |}
        {| console := co2; calls := ca2; apps := apps w2;
           module_components := module_components w2 |};
  observation_module : ∀ w1 w2, R w1 w2 → same_module w1 w2
}.

(** [untouched old w]: the instances and the module-level mapping of
    [w] are those of [old]. *)
Definition untouched (old w : world) : Prop :=
  apps w = apps old ∧ module_components w = module_components old.

(** [extended old w]: [w] has the instances of [old], unchanged, and one
    more; its module-level mapping is that of [old]. *)
Definition extended (old w : world) : Prop :=
  (∃ a, apps w = apps old ++ [a])
  ∧ module_components w = module_components old.

(** An invariant that looks at the instances and the module state
    only. *)
Class Shape (I : world → Prop) : Prop :=
  shape_frame :
    ∀ w w', I w → apps w' = apps w →
            module_components w' = module_components w → I w'.

(** [preserves I m]: [m] keeps the invariant [I] of the world. *)
Definition preserves (I : world → Prop) {A} (m : M A) : Prop :=
  ∀ w, I w → I (snd (m w)).

(** The options of the style compilations among a list of calls. *)
Definition style_calls (l : list call) : list SFCStyleCompileOptions :=
  omap (fun c => match c with CallCompileStyle o => Some o | _ => None end) l.

(** The compilations of a block among a list of calls. *)
Definition is_compilation (c : call) : bool :=
  match c with
  | CallCompileScript _ _ | CallCompileStyle _ | CallCompileTemplate _ => true
  | _ => false
  end.

(** The engine constructions among a list of calls. *)
Definition engine_calls (l : list call) : list I18nEngineOptions :=
  omap (fun c => match c with CallCreateI18n o => Some o | _ => None end) l.

(** The progress notices among the entries of the console. *)
Definition warnings (l : list console_entry) : list string :=
  omap (fun e => match e with Warn line => Some line | _ => None end) l.

(** The options of the template compilations among a list of calls. *)
Definition template_calls (l : list call)
  : list SFCTemplateCompileOptions :=
  omap (fun c => match c with CallCompileTemplate o => Some o | _ => None end)
       l.

(** The script compilations among a list of calls. *)
Definition script_calls (l : list call)
  : list (SFCDescriptor * SFCScriptCompileOptions) :=
  omap (fun c =>
          match c with CallCompileScript d o => Some (d, o) | _ => None end)
       l.

(** An invariant that looks at the console only, and one that looks at
    the calls only. *)
Class ConsoleOnly (I : world → Prop) : Prop :=
  console_only : ∀ w w', I w → console w' = console w → I w'.

Class CallsOnly (I : world → Prop) : Prop :=
  calls_only : ∀ w w', I w → calls w' = calls w → I w'.

(** [quiet old w]: [w] holds the progress notices of [old] and no
    other. *)
Definition quiet (old w : world) : Prop :=
  warnings (console w) = warnings (console old).

(** [engineless old w]: no localisation engine was constructed between
    [old] and [w]. *)
Definition engineless (old w : world) : Prop :=
  engine_calls (calls w) = engine_calls (calls old).

(** The instance creations among a list of calls, each with the root
    definition and the properties it was given. *)
Definition created (c : call) : option (definition * option Props) :=
  match c with
  | CallCreateApp root props => Some (root, props)
  | _ => None
  end.

Definition create_calls (l : list call)
  : list (definition * option Props) :=
  omap created l.

(** [creating old w]: no instance creation was asked for between [old]
    and [w]. *)
Definition creating (old w : world) : Prop :=
  create_calls (calls w) = create_calls (calls old).

(** The parses among a list of calls, each with its source and file
    name. *)
Definition parse_calls (l : list call) : list (string * string) :=
  omap (fun c =>
          match c with
          | CallParse source filename => Some (source, filename)
          | _ => None
          end) l.

(** ** A small host for examples

    An instance of [Imports] on which the pipeline can be run: a parser
    that knows three sources and reports two diagnostics on any other,
    compilers that hand their input back, an evaluator that wraps the
    module text, and a serialiser that writes a fixed paragraph followed
    by the names registered on the instance and what plugins provided. *)

Module Demo.

Definition plain : string := "<template><p>Hi</p></template>".
Definition styled : string :=
  "<template><p>Hi</p></template><style>p{}</style><style scoped>b{}</style>".
Definition scripted : string :=
  "<script>export default {}</script><template><p>Hi</p></template><style>p{}</style>".
Definition broken : string := "<template><p>Hi</template>".

Definition block (filename : string) (script : option SFCScriptBlock)
    (styles : list SFCStyleBlock) : SFCDescriptor :=
  {| descriptor_filename := filename;
     descriptor_template := Some {| template_content := "<p>Hi</p>" |};
     descriptor_script := script;
     descriptor_scriptSetup := None;
     descriptor_styles := styles |}.

Definition parse_known (source filename : string) : outcome SFCParseResult :=
  if String.eqb source plain then
    Returned {| descriptor := block filename None []; errors := [] |}
  else if String.eqb source styled then
    Returned
      {| descriptor :=
           block filename None
             [ {| style_content := "p{}"; style_scoped := false |};
               {| style_content := "b{}"; style_scoped := true |} ];
         errors := [] |}
  else if String.eqb source scripted then
    Returned
      {| descriptor :=
           block filename
             (Some {| script_content := "export default {}";
                      script_bindings := ∅ |})
             [ {| style_content := "p{}"; style_scoped := false |} ];
         errors := [] |}
  else
    Returned
      {| descriptor :=
           {| descriptor_filename := filename;
              descriptor_template := None;
              descriptor_script := None;
              descriptor_scriptSetup := None;
              descriptor_styles := [] |};
         errors := ["SyntaxError: Element is missing end tag.";
                    "SyntaxError: Invalid end tag."] |}.

Definition script_compiler (d : SFCDescriptor) (o : SFCScriptCompileOptions)
  : outcome SFCScriptBlock :=
  Returned {| script_content := "const " +:+ genDefaultAs o +:+ " = {}";
              script_bindings := ∅ |}.

Definition serializer (a : app) : outcome string :=
  match app_root a !! "__file" with
  | Some (VString file) =>
      Returned
        ("<p>Hi</p><!--" +:+ file +:+ ":" +:+
         JsString.join "," (fst <$> map_to_list (app_components a))
         +:+ ":" +:+ JsString.join "," (app_provides a) +:+ "-->")
  | _ => Raised (Thrown "SerializationError")
  end.

Definition blank : app :=
  {| app_root := ∅; app_props := None; app_performance := false;
     app_components := ∅; app_provides := [] |}.

Definition file_of (code : string) : string :=
  if String.eqb code "" then "" else "module".

Definition lib : Imports :=
  {| pascalCase := Scule.pascalCase;
     parse := parse_known;
     compileScript := script_compiler;
     compileStyle := fun o => Returned {| style_code := style_source o |};
     compileTemplate :=
       fun o => Returned {| template_code := template_source o |};
     importModule :=
       fun code =>
         Returned
           (Some {[ "render" := VCode code;
                    "__file" := VString (file_of code) ]});
     createApp :=
       fun component props =>
         Returned
           {| app_root := component; app_props := props;
              app_performance := false; app_components := ∅;
              app_provides := [] |};
     VueEmailPlugin := fun _ a => Returned a;
     cleanup := fun markup => Returned markup;
     createI18n :=
       fun o =>
         Returned (fun a =>
           Returned
             {| app_root := app_root a; app_props := app_props a;
                app_performance := app_performance a;
                app_components := app_components a;
                app_provides := locale o :: app_provides a |});
     renderToString := serializer;
     lightGreen := id; bold := id; blue := id; red := id; white := id |}.

End Demo.

(** Hosts that differ from [Demo.lib] in the parser, the evaluator or the
    engine constructor, to run the pipeline on its failure paths. *)

Module Variants.

Definition host (p : string → string → outcome SFCParseResult)
    (evaluate : string → outcome (option definition))
    (engine : I18nEngineOptions → outcome plugin) : Imports :=
  {| pascalCase := pascalCase Demo.lib;
     parse := p;
     compileScript := compileScript Demo.lib;
     compileStyle := compileStyle Demo.lib;
     compileTemplate := compileTemplate Demo.lib;
     importModule := evaluate;
     createApp := createApp Demo.lib;
     VueEmailPlugin := VueEmailPlugin Demo.lib;
     cleanup := cleanup Demo.lib;
     createI18n := engine;
     renderToString := renderToString Demo.lib;
     lightGreen := id; bold := id; blue := id; red := id; white := id |}.

(** A parser that finds a script block and no template block. *)
Definition script_only (source filename : string) : outcome SFCParseResult :=
  Returned
    {| descriptor :=
         {| descriptor_filename := filename;
            descriptor_template := None;
            descriptor_script :=
              Some {| script_content := source; script_bindings := ∅ |};
            descriptor_scriptSetup := None;
            descriptor_styles := [] |};
       errors := [] |}.

Definition without_template : Imports :=
  host script_only (importModule Demo.lib) (createI18n Demo.lib).


(** An engine constructor that raises. *)
Definition without_engine : Imports :=
  host (parse Demo.lib) (importModule Demo.lib)
       (fun _ => Raised (Thrown "RangeError")).


End Variants.

(** * Properties *)

(** ** Strings *)

Lemma app_cons (c : ascii) (s t : string) :
  String c s +:+ t = String c (s +:+ t).
Proof. reflexivity. Qed.

Lemma app_empty_l (s : string) : "" +:+ s = s.
Proof. reflexivity. Qed.

Lemma app_empty_r (s : string) : s +:+ "" = s.
Proof. induction s as [|c s IH]; [done|]. by rewrite app_cons, IH. Qed.

Lemma app_assoc_string (s t u : string) :
  (s +:+ t) +:+ u = s +:+ (t +:+ u).
Proof.
  induction s as [|c s IH]; [done|]. by rewrite !app_cons, IH.
Qed.

Lemma chars_app (s t : string) :
  list_ascii_of_string (s +:+ t)
  = list_ascii_of_string s ++ list_ascii_of_string t.
Proof.
  induction s as [|c s IH]; [done|]. rewrite app_cons. simpl. by rewrite IH.
Qed.

Lemma strip_prefix_sound (pat s rest : string) :
  JsString.strip_prefix pat s = Some rest → s = pat +:+ rest.
Proof.
  revert s. induction pat as [|a pat IH]; intros s H.
  - destruct s; simpl in H; by simplify_eq.
  - destruct s as [|b s]; simpl in H; [done|].
    destruct (Ascii.eqb_spec a b) as [->|]; [|done].
    rewrite app_cons. f_equal. by apply IH.
Qed.

Lemma strip_prefix_complete (pat rest : string) :
  JsString.strip_prefix pat (pat +:+ rest) = Some rest.
Proof.
  induction pat as [|a pat IH].
  - rewrite app_empty_l. by destruct rest.
  - rewrite app_cons. simpl. by rewrite Ascii.eqb_refl.
Qed.

Lemma no_prefix_no_head_occurrence (pat s q : string) :
  JsString.strip_prefix pat s = None → s ≠ "" +:+ pat +:+ q.
Proof.
  intros H ->. rewrite app_empty_l, strip_prefix_complete in H. done.
Qed.

Lemma replace_unfold (pat rep s : string) :
  JsString.replace pat rep s
  = match JsString.strip_prefix pat s with
    | Some rest => rep +:+ rest
    | None =>
        match s with
        | EmptyString => EmptyString
        | String c s' => String c (JsString.replace pat rep s')
        end
    end.
Proof. by destruct s. Qed.

(** [replace] removes the leftmost occurrence and nothing else. *)
Lemma replace_spec (pat rep s : string) :
  (¬ JsString.occurs pat s ∧ JsString.replace pat rep s = s)
  ∨ (∃ p q, JsString.leftmost pat s p q
            ∧ JsString.replace pat rep s = p +:+ rep +:+ q).
Proof.
  induction s as [|c s IH].
  - destruct (JsString.strip_prefix pat "") as [rest|] eqn:Hpre.
    + right. exists "", rest. split.
      * split; [by apply strip_prefix_sound in Hpre|]. intros; simpl; lia.
      * by rewrite replace_unfold, Hpre.
    + left. split.
      * intros (p & q & Hs). destruct p; [|done].
        by eapply no_prefix_no_head_occurrence.
      * by rewrite replace_unfold, Hpre.
  - destruct (JsString.strip_prefix pat (String c s)) as [rest|] eqn:Hpre.
    + right. exists "", rest. split.
      * split; [by apply strip_prefix_sound in Hpre|]. intros; simpl; lia.
      * by rewrite replace_unfold, Hpre.
    + assert (JsString.replace pat rep (String c s)
              = String c (JsString.replace pat rep s)) as Hstep.
      { by rewrite replace_unfold, Hpre. }
      destruct IH as [[Hno Heq]|(p & q & [Hs Hmin] & Heq)].
      * left. split; [|by rewrite Hstep, Heq].
        intros (p & q & Hs). destruct p as [|c' p].
        -- by eapply no_prefix_no_head_occurrence.
        -- rewrite app_cons in Hs. simplify_eq. apply Hno. by exists p, q.
      * right. exists (String c p), q. split.
        -- split; [by rewrite app_cons, <- Hs|].
           intros p' q' Hs'. destruct p' as [|c' p'].
           ++ by eapply no_prefix_no_head_occurrence in Hpre.
           ++ rewrite app_cons in Hs'. simplify_eq. simpl.
              apply le_n_S. by eapply Hmin.
        -- by rewrite Hstep, Heq, app_cons.
Qed.

Lemma replaceAll_chars (c d : ascii) (s : string) :
  list_ascii_of_string (JsString.replaceAll c (String d "") s)
  = (λ a, if Ascii.eqb a c then d else a) <$> list_ascii_of_string s.
Proof.
  induction s as [|a s IH]; [done|].
  simpl. rewrite chars_app, IH. by destruct (Ascii.eqb a c).
Qed.

Lemma mem_chars (c : ascii) (s : string) :
  JsString.mem c s ↔ c ∈ list_ascii_of_string s.
Proof. unfold JsString.mem. by rewrite list_elem_of_In. Qed.

Lemma replace_without_occurrence (pat rep s : string) :
  ¬ JsString.occurs pat s → JsString.replace pat rep s = s.
Proof.
  intros Hno. destruct (replace_spec pat rep s) as [[_ H]|(p & q & [Hs _] & _)];
    [done|]. destruct Hno. by exists p, q.
Qed.

Lemma occurs_mem (c : ascii) (pat s : string) :
  JsString.mem c pat → JsString.occurs pat s → JsString.mem c s.
Proof.
  rewrite !mem_chars. intros Hc (p & q & ->).
  rewrite !chars_app. set_solver.
Qed.

(** ** The reference PascalCase conversion meets the normaliser's needs *)



























(** ** Name normalisation *)

Lemma replaceAll_without (c : ascii) (rep s : string) :
  ¬ JsString.mem c s → JsString.replaceAll c rep s = s.
Proof.
  unfold JsString.mem. induction s as [|a s IH]; [done|]. simpl.
  intros Hno. destruct (Ascii.eqb_spec a c) as [->|_]; [tauto|].
  rewrite IH by tauto. done.
Qed.

Lemma replaceAll_removes (c d : ascii) (s : string) :
  c ≠ d → ¬ JsString.mem c (JsString.replaceAll c (String d "") s).
Proof.
  intros Hcd. rewrite mem_chars, replaceAll_chars.
  intros (a & Ha & _)%list_elem_of_fmap.
  destruct (Ascii.eqb_spec a c); congruence.
Qed.




Section NormalizerContract.

Variable pascalCase : string → string.

(** What the normaliser relies on from [pascalCase]: converting twice
    changes nothing more, a dot is a word splitter and never survives,
    and no [:] appears that was not there. *)
Hypothesis pascalCase_idempotent :
  ∀ s, pascalCase (pascalCase s) = pascalCase s.
Hypothesis pascalCase_consumes_dot :
  ∀ s, ¬ JsString.mem "." (pascalCase s).
Hypothesis pascalCase_no_new_colon :
  ∀ s, ¬ JsString.mem ":" s → ¬ JsString.mem ":" (pascalCase s).



End NormalizerContract.



(** ** Running effects *)

Lemma bind_run {A B} (m : M A) (k : A → M B) (w : world) :
  bind m k w
  = match m w with
    | (Returned a, w') => k a w'
    | (Raised e, w') => (Raised e, w')
    end.
Proof. reflexivity. Qed.

Lemma bind_returned {A B} (m : M A) (k : A → M B) (w w' : world) (b : B) :
  bind m k w = (Returned b, w') →
  ∃ a w1, m w = (Returned a, w1) ∧ k a w1 = (Returned b, w').
Proof.
  rewrite bind_run. destruct (m w) as [[a|e] w1]; [|done]. by exists a, w1.
Qed.

Lemma try_catch_run {A} (m : M A) (h : exn → M A) (w : world) :
  try_catch m h w
  = match m w with
    | (Returned a, w') => (Returned a, w')
    | (Raised e, w') => h e w'
    end.
Proof. reflexivity. Qed.

(** *** Effects that neither read nor write instances and module state *)

Lemma is_local_ret {A} (a : A) : is_local (ret a).
Proof. by exists (Returned a). Qed.

Lemma is_local_throw {A} (e : exn) : is_local (throw (A := A) e).
Proof. by exists (Raised e). Qed.

Lemma is_local_log (entry : console_entry) : is_local (log entry).
Proof. by exists (Returned tt). Qed.

Lemma is_local_invoke {A} (c : call) (r : outcome A) : is_local (invoke c r).
Proof. by exists r. Qed.

Lemma is_local_bind {A B} (m : M A) (k : A → M B) :
  is_local m → (∀ a, is_local (k a)) → is_local (bind m k).
Proof.
  intros [[a|e] Hm] Hk.
  - destruct (Hk a) as [r' Hr']. exists r'. intros w.
    destruct (Hm w) as (H1 & H2 & H3). rewrite bind_run.
    destruct (m w) as [[a'|e'] w1]; simpl in *; simplify_eq.
    destruct (Hr' w1) as (? & ? & ?). split_and!; congruence.
  - exists (Raised e). intros w.
    destruct (Hm w) as (H1 & H2 & H3). rewrite bind_run.
    destruct (m w) as [[a'|e'] w1]; simpl in *; by simplify_eq.
Qed.

Lemma is_local_try_catch {A} (m : M A) (h : exn → M A) :
  is_local m → (∀ e, is_local (h e)) → is_local (try_catch m h).
Proof.
  intros [[a|e] Hm] Hh.
  - exists (Returned a). intros w.
    destruct (Hm w) as (H1 & H2 & H3). rewrite try_catch_run.
    destruct (m w) as [[a'|e'] w1]; simpl in *; by simplify_eq.
  - destruct (Hh e) as [r' Hr']. exists r'. intros w.
    destruct (Hm w) as (H1 & H2 & H3). rewrite try_catch_run.
    destruct (m w) as [[a'|e'] w1]; simpl in *; simplify_eq.
    destruct (Hr' w1) as (? & ? & ?). split_and!; congruence.
Qed.

Lemma is_local_when (b : bool) (m : M unit) :
  is_local m → is_local (when b m).
Proof. destruct b; [done|]. intros _. apply is_local_ret. Qed.

Lemma is_local_console_warn (line : string) : is_local (console_warn line).
Proof. apply is_local_log. Qed.

Lemma is_local_console_error (label : string) (e : exn) :
  is_local (console_error label e).
Proof. apply is_local_log. Qed.

Create HintDb locality.
#[export] Hint Resolve is_local_ret is_local_throw is_local_log
  is_local_invoke is_local_when is_local_console_warn
  is_local_console_error : locality.

Ltac locality :=
  repeat first
    [ progress auto with locality
    | apply is_local_bind; [|intros ?]
    | apply is_local_try_catch; [|intros ?]
    | case_match ].

Lemma compile_local (lib : Imports) (filename source : string)
    (verbose : bool) :
  is_local (compile lib filename source verbose).
Proof. unfold compile. locality. Qed.

#[export] Hint Resolve compile_local : locality.

Lemma loadComponent_local (lib : Imports) (name source : string)
    (verbose : bool) :
  is_local (loadComponent lib name source verbose).
Proof. unfold loadComponent. locality. Qed.

(** [loadComponent] never raises: what it hands back is [loaded], in
    every world, and it touches neither instances nor module state. *)
Lemma loadComponent_run (lib : Imports) (name source : string)
    (verbose : bool) :
  local (loadComponent lib name source verbose)
        (Returned (loaded lib name source verbose)).
Proof.
  destruct (loadComponent_local lib name source verbose) as [r Hr].
  assert (∃ o, r = Returned o) as [o ->].
  { destruct (Hr loaded_world) as [<- _]. unfold loadComponent.
    rewrite try_catch_run. destruct (bind _ _ _) as [[o|e] w']; eauto. }
  unfold loaded. by destruct (Hr loaded_world) as [-> _].
Qed.

(** ** The source compiler *)

(** C6: when the parse reports a diagnostic, [compile] raises an error
    whose message joins all the diagnostics, and the parse is the only
    call it has made: no block is compiled. *)
Theorem compile_parse_errors (lib : Imports) (filename source : string)
    (verbose : bool) (w : world) (parsed : SFCParseResult) :
  parse lib source filename = Returned parsed →
  errors parsed ≠ [] →
  fst (compile lib filename source verbose w)
  = Raised (Error (JsString.join newline (errors parsed)))
  ∧ calls (snd (compile lib filename source verbose w))
    = calls w ++ [CallParse source filename]
  ∧ filter is_compilation (calls (snd (compile lib filename source verbose w)))
    = filter is_compilation (calls w).
Proof.
  intros Hparse Herr.
  unfold compile, bind, when, console_warn, log, invoke, ret, throw.
  destruct verbose; simpl; rewrite Hparse; simpl;
    rewrite (bool_decide_eq_false_2 _ Herr); simpl;
    rewrite filter_app; simpl; by rewrite app_nil_r.
Qed.

Lemma compile_parse_errors_witness :
  fst (compile Demo.lib "Welcome" Demo.broken true loaded_world)
  = Raised
      (Error
         (JsString.join newline
            ["SyntaxError: Element is missing end tag.";
             "SyntaxError: Invalid end tag."]))
  ∧ calls (snd (compile Demo.lib "Welcome" Demo.broken true loaded_world))
    = calls loaded_world ++ [CallParse Demo.broken "Welcome"]
  ∧ filter is_compilation
      (calls (snd (compile Demo.lib "Welcome" Demo.broken true loaded_world)))
    = filter is_compilation (calls loaded_world).
Proof.
  apply (compile_parse_errors Demo.lib "Welcome" Demo.broken true
           loaded_world
           {| descriptor :=
                {| descriptor_filename := "Welcome";
                   descriptor_template := None;
                   descriptor_script := None;
                   descriptor_scriptSetup := None;
                   descriptor_styles := [] |};
              errors := ["SyntaxError: Element is missing end tag.";
                         "SyntaxError: Invalid end tag."] |});
    [reflexivity|discriminate].
Defined.

(** C7: with one or more style blocks, the only style compilation
    [compile] asks for is that of the first block's content, with
    scoping requested exactly when some block, first or not, is scoped;
    it is asked for whenever the script step before it does not raise. *)
Theorem compile_first_style_any_scoped (lib : Imports)
    (filename source : string) (verbose : bool) (w : world)
    (parsed : SFCParseResult) (first : SFCStyleBlock)
    (rest : list SFCStyleBlock) :
  parse lib source filename = Returned parsed →
  errors parsed = [] →
  descriptor_styles (descriptor parsed) = first :: rest →
  let expected :=
    {| style_id := descriptor_filename (descriptor parsed);
       style_filename := filename;
       style_source := style_content first;
       scoped := existsb style_scoped (first :: rest) |} in
  ∃ new,
    calls (snd (compile lib filename source verbose w)) = calls w ++ new
    ∧ (style_calls new = [] ∨ style_calls new = [expected])
    ∧ ((∀ o e, compileScript lib (descriptor parsed) o ≠ Raised e) →
       style_calls new = [expected])
    ∧ (scoped expected = true
       ↔ ∃ s, s ∈ first :: rest ∧ style_scoped s = true).
Proof.
  intros Hparse Herr Hstyles expected.
  assert (scoped expected = true
          ↔ ∃ s, s ∈ first :: rest ∧ style_scoped s = true) as Hscoped.
  { unfold expected. cbn [scoped]. rewrite existsb_exists.
    setoid_rewrite list_elem_of_In. done. }
  unfold compile, bind, when, console_warn, log, invoke, ret, throw.
  destruct verbose; simpl; rewrite Hparse; simpl; rewrite Herr; simpl;
    rewrite Hstyles; fold expected;
    (destruct (bool_decide _ || bool_decide _); simpl;
     [ match goal with
       | |- context [compileScript lib ?d ?o] =>
           destruct (compileScript lib d o) as [s|e] eqn:Hs
       end; simpl|]);
    try (destruct (compileStyle lib expected) as [st|e'] eqn:Hst; simpl;
         [ destruct (descriptor_template (descriptor parsed)); simpl;
           [ match goal with
             | |- context [compileTemplate lib ?o] =>
                 destruct (compileTemplate lib o)
             end; simpl|]|]);
    eexists; (split; [by rewrite <- ?(assoc (++))|]);
    (split; [auto|split; [|done]]);
    try done; intros Hok; by destruct (Hok _ _ Hs).
Qed.

Lemma compile_first_style_any_scoped_witness :
  ∃ new,
    calls (snd (compile Demo.lib "Welcome" Demo.styled false loaded_world))
    = calls loaded_world ++ new
    ∧ style_calls new
      = [ {| style_id := "Welcome"; style_filename := "Welcome";
             style_source := "p{}"; scoped := true |} ].
Proof.
  destruct (compile_first_style_any_scoped Demo.lib "Welcome" Demo.styled
              false loaded_world
              {| descriptor :=
                   Demo.block "Welcome" None
                     [ {| style_content := "p{}"; style_scoped := false |};
                       {| style_content := "b{}"; style_scoped := true |} ];
                 errors := [] |}
              {| style_content := "p{}"; style_scoped := false |}
              [ {| style_content := "b{}"; style_scoped := true |} ]
              eq_refl eq_refl eq_refl) as (new & Hcalls & _ & Hone & _).
  exists new. split; [exact Hcalls|]. apply Hone. discriminate.
Defined.

(** ** The render orchestrator *)

Lemma invoke_returned {A} (c : call) (r : outcome A) (w w' : world) (a : A) :
  invoke c r w = (Returned a, w') → r = Returned a.
Proof. by intros [= -> _]. Qed.

(** What a successful run of the [try] block returns. *)
Lemma templateRender_try_returned (lib : Imports) (name : string)
    (code : SourceOptions) (options : option RenderOptions)
    (config : option Options) (w w' : world) (doc : string) :
  templateRender_try lib name code options config w = (Returned doc, w') →
  ∃ instance markup cleaned,
    renderToString lib instance = Returned markup
    ∧ cleanup lib markup = Returned cleaned
    ∧ doc = doctype +:+ cleaned.
Proof.
  unfold templateRender_try. intros H.
  apply bind_returned in H as (component & w1 & _ & H).
  apply bind_returned in H as ([] & w2 & _ & H).
  destruct component as [component|]; [|done].
  apply bind_returned in H as (made & w3' & _ & H).
  apply bind_returned in H as (app & w3 & _ & H).
  apply bind_returned in H as ([] & w4 & _ & H).
  apply bind_returned in H as ([] & w5 & _ & H).
  apply bind_returned in H as ([] & w6 & _ & H).
  apply bind_returned in H as ([] & w7 & _ & H).
  apply bind_returned in H as ([] & w8 & _ & H).
  apply bind_returned in H as ([] & w9 & _ & H).
  apply bind_returned in H as (rendered & w10 & Hrender & H).
  apply bind_returned in H as (cleaned & w11 & Hclean & H).
  unfold serialize in Hrender.
  destruct (apps w9 !! app) as [instance|]; [|done].
  apply invoke_returned in Hrender. apply invoke_returned in Hclean.
  injection H as <- _. by exists instance, rendered, cleaned.
Qed.

(** C1: [templateRender] never raises; it returns the doctype followed
    by the cleaned markup when every step succeeds, and the empty string
    as soon as one step raises. *)
Theorem templateRender_never_raises (lib : Imports) (name : string)
    (code : SourceOptions) (options : option RenderOptions)
    (config : option Options) (w : world) :
  ∃ result,
    fst (templateRender lib name code options config w) = Returned result
    ∧ match fst (templateRender_try lib name code options config w) with
      | Returned doc =>
          result = doc
          ∧ ∃ instance markup cleaned,
              renderToString lib instance = Returned markup
              ∧ cleanup lib markup = Returned cleaned
              ∧ doc = doctype +:+ cleaned
      | Raised _ => result = ""
      end.
Proof.
  unfold templateRender. rewrite try_catch_run.
  destruct (templateRender_try lib name code options config w)
    as [[doc|e] w'] eqn:Htry; simpl.
  - exists doc. split_and!; [done..|].
    by eapply templateRender_try_returned.
  - by exists "".
Qed.

(** ** The fused module body *)

(** The text assembled by [compile] is the text of its seven
    statements. *)
Lemma output_reads_as_statements (template : SFCTemplateCompileResults)
    (script : option SFCScriptBlock)
    (styles : option SFCStyleCompileResults) (d : SFCDescriptor) :
  output template script styles d
  = module_text (fused_statements template script styles d).
Proof.
  unfold output, module_text, fused_statements. simpl.
  destruct script, styles; simpl; by rewrite ?app_assoc_string.
Qed.

(** With a script block the default export is the internal symbol, with
    the render function, the style payload and the file name attached. *)
Lemma default_export_with_script (script_default : string → definition)
    (template : SFCTemplateCompileResults) (script : SFCScriptBlock)
    (styles : SFCStyleCompileResults) (d : SFCDescriptor) :
  ∃ sc exported,
    run_module script_default empty_scope
      (fused_statements template (Some script) (Some styles) d) = Some sc
    ∧ default_export sc = Some exported
    ∧ binding_main sc = Some exported
    ∧ exported !! "render" = Some (VCode (template_code template))
    ∧ exported !! "style" = Some (VString (style_code styles))
    ∧ exported !! "__file" = Some (VString (descriptor_filename d)).
Proof.
  eexists _, _. split; [reflexivity|]. simpl.
  split_and!; [done..| | |]; by simplify_map_eq.
Qed.

(** C2 fails without a script block: the style payload and the file name
    are attached to the internal symbol, but the default export is a
    fresh object that holds the render function and nothing else. *)
Theorem default_export_without_script
    (script_default : string → definition)
    (template : SFCTemplateCompileResults)
    (styles : SFCStyleCompileResults) (d : SFCDescriptor) :
  output template None (Some styles) d
  = module_text (fused_statements template None (Some styles) d)
  ∧ ∃ sc main exported,
      run_module script_default empty_scope
        (fused_statements template None (Some styles) d) = Some sc
      ∧ binding_main sc = Some main
      ∧ main !! "style" = Some (VString (style_code styles))
      ∧ main !! "__file" = Some (VString (descriptor_filename d))
      ∧ default_export sc = Some exported
      ∧ exported = {[ "render" := VCode (template_code template) ]}
      ∧ exported !! "style" = None
      ∧ exported !! "__file" = None.
Proof.
  split; [apply output_reads_as_statements|].
  eexists _, _, _. split; [reflexivity|]. simpl.
  split_and!; [done| | |done|done|done|done]; by simplify_map_eq.
Qed.

(** The module text compiled from a template and a style block without a
    script block ends with the export of a fresh object. *)
Example compile_styled_without_script :
  fst (compile Demo.lib "Welcome" Demo.styled false loaded_world)
  = Returned
      (newline +:+ "  <p>Hi</p>" +:+ newline +:+
       newline +:+ "  " +:+
       newline +:+ "  const styles = " +:+ backtick +:+ "p{}" +:+ backtick +:+
       newline +:+ "  const _sfc_main = { render }" +:+
       newline +:+ "  _sfc_main.style = styles" +:+
       newline +:+ "  _sfc_main.__file = " +:+ dquote +:+ "Welcome" +:+ dquote +:+
       newline +:+ "  export default { render }" +:+
       newline +:+ "  ").
Proof. reflexivity. Qed.

(** ** Runs from related worlds *)

#[export] Instance same_module_observation : Observation same_module.
Proof. by split. Qed.

#[export] Instance agree_observation (i j : nat) : Observation (agree i j).
Proof. split; [done|]. by intros w1 w2 [? _]. Qed.

Lemma respects_ext (R : world → world → Prop) {A} (m1 m1' m2 m2' : M A) :
  (∀ w, m1 w = m1' w) → (∀ w, m2 w = m2' w) →
  respects R m1' m2' → respects R m1 m2.
Proof. intros E1 E2 H w1 w2 HR. rewrite E1, E2. by apply H. Qed.

Lemma respects_ret (R : world → world → Prop) {A} (a : A) :
  respects R (ret a) (ret a).
Proof. by intros w1 w2. Qed.

Lemma respects_throw (R : world → world → Prop) {A} (e : exn) :
  respects R (throw (A := A) e) (throw e).
Proof. by intros w1 w2. Qed.

Lemma respects_bind (R : world → world → Prop) {A B} (m1 m2 : M A)
    (k1 k2 : A → M B) :
  respects R m1 m2 → (∀ a, respects R (k1 a) (k2 a)) →
  respects R (bind m1 k1) (bind m2 k2).
Proof.
  intros Hm Hk w1 w2 HR. rewrite !bind_run.
  destruct (Hm w1 w2 HR) as [Hfst HR'].
  destruct (m1 w1) as [[a1|e1] w1'], (m2 w2) as [[a2|e2] w2'];
    simpl in *; simplify_eq; [by apply Hk|done].
Qed.

Lemma respects_try_catch (R : world → world → Prop) {A} (m1 m2 : M A)
    (h1 h2 : exn → M A) :
  respects R m1 m2 → (∀ e, respects R (h1 e) (h2 e)) →
  respects R (try_catch m1 h1) (try_catch m2 h2).
Proof.
  intros Hm Hh w1 w2 HR. rewrite !try_catch_run.
  destruct (Hm w1 w2 HR) as [Hfst HR'].
  destruct (m1 w1) as [[a1|e1] w1'], (m2 w2) as [[a2|e2] w2'];
    simpl in *; simplify_eq; [done|by apply Hh].
Qed.

Lemma observation_frame (R : world → world → Prop) `{!Observation R}
    (w1 w2 w1' w2' : world) :
  R w1 w2 →
  apps w1' = apps w1 → module_components w1' = module_components w1 →
  apps w2' = apps w2 → module_components w2' = module_components w2 →
  R w1' w2'.
Proof.
  intros HR A1 M1 A2 M2.
  pose proof (observation_silent w1 w2 (console w1') (calls w1')
                (console w2') (calls w2') HR) as H.
  rewrite <- A1, <- M1, <- A2, <- M2 in H. by destruct w1', w2'.
Qed.

(** An effect that reads and writes neither instances nor module state
    behaves alike in related worlds. *)
Lemma respects_local (R : world → world → Prop) `{!Observation R} {A}
    (m : M A) :
  is_local m → respects R m m.
Proof.
  intros [r Hr] w1 w2 HR.
  destruct (Hr w1) as (F1 & A1 & M1), (Hr w2) as (F2 & A2 & M2).
  split; [congruence|]. by eapply observation_frame.
Qed.

(** A local effect on the left only can be skipped. *)
Lemma respects_skip_left (R : world → world → Prop) `{!Observation R}
    {A B} (m : M A) (a : A) (k : A → M B) (m2 : M B) :
  local m (Returned a) → respects R (k a) m2 → respects R (bind m k) m2.
Proof.
  intros Hm Hk w1 w2 HR. rewrite bind_run.
  destruct (Hm w1) as (F1 & A1 & M1).
  destruct (m w1) as [[a'|e] w1']; simpl in *; simplify_eq.
  apply Hk. eapply observation_frame; eauto.
Qed.

Lemma respects_read_components (R : world → world → Prop)
    `{!Observation R} :
  respects R read_components read_components.
Proof.
  intros w1 w2 HR. split; [|done]. simpl. f_equal.
  by apply observation_module.
Qed.

Lemma respects_update_app (i j : nat) (f : app → outcome app) :
  respects (agree i j) (update_app i f) (update_app j f).
Proof.
  intros w1 w2 [Hm Ha]. unfold update_app. rewrite Ha.
  destruct (apps w2 !! j) as [a|] eqn:Hj;
    [|repeat split; simpl; congruence].
  destruct (f a) as [a'|e]; [|repeat split; simpl; congruence].
  split; [done|].
  split; [done|]. simpl.
  rewrite !list_lookup_insert_eq; [done|..]; by eapply lookup_lt_Some.
Qed.

Lemma respects_serialize (lib : Imports) (i j : nat) :
  respects (agree i j) (serialize lib i) (serialize lib j).
Proof.
  intros w1 w2 [Hm Ha]. unfold serialize. rewrite Ha.
  destruct (apps w2 !! j) as [a|] eqn:Hj; repeat split; simpl; congruence.
Qed.

(** After the allocation the two runs go on with the instance each has
    made. *)
Lemma respects_allocate (instance : app) {B} (k1 k2 : nat → M B) :
  (∀ i j, respects (agree i j) (k1 i) (k2 j)) →
  respects same_module (bind (allocate instance) k1)
                       (bind (allocate instance) k2).
Proof.
  intros Hk w1 w2 HR. rewrite !bind_run. simpl.
  destruct (Hk (length (apps w1)) (length (apps w2))
              (set_apps w1 (apps w1 ++ [instance]))
              (set_apps w2 (apps w2 ++ [instance]))) as [Hfst [Hm _]].
  { split; [done|]. simpl. by rewrite !list_lookup_middle. }
  by split.
Qed.

Ltac relational :=
  repeat first
    [ apply respects_ret
    | apply respects_throw
    | apply respects_update_app
    | apply respects_serialize
    | apply respects_read_components; apply _
    | apply respects_local; [apply _|solve [locality]]
    | apply respects_bind; [|intros ?]
    | apply respects_try_catch; [|intros ?]
    | case_match ].

#[export] Hint Resolve loadComponent_local : locality.

Lemma register_components_respects (lib : Imports) (i j : nat)
    (verbose : bool) (entries : list EmailComponent) :
  respects (agree i j) (register_components lib i verbose entries)
                       (register_components lib j verbose entries).
Proof.
  induction entries as [|e rest IH]; simpl; [apply respects_ret|].
  unfold app_component. relational. apply IH.
Qed.

Lemma install_i18n_respects (lib : Imports) (i j : nat) (verbose : bool)
    (options : option RenderOptions) (config : option Options) :
  respects (agree i j) (install_i18n lib i verbose options config)
                       (install_i18n lib j verbose options config).
Proof.
  unfold install_i18n.
  destruct (hasI18n options config); [|apply respects_ret].
  destruct (truthy_string _); [|apply respects_ret].
  apply respects_bind; [relational|intros _].
  apply respects_try_catch; [|intros _; apply respects_throw].
  apply respects_bind; [relational|intros p].
  apply respects_bind.
  - intros w1 w2 HR. split; [done|].
    by apply (observation_frame _ w1 w2).
  - intros _. apply respects_update_app.
Qed.

Lemma registration_guard (lib : Imports) (i : nat) (verbose : bool)
    (entries : option (list EmailComponent)) (w : world) :
  match entries with
  | Some (first :: rest) =>
      register_components lib i verbose (first :: rest)
  | _ => ret tt
  end w
  = register_components lib i verbose (default [] entries) w.
Proof. by destruct entries as [[|? ?]|]. Qed.

(** Two runs of the [try] block on the same name, source, options and
    configuration, from worlds with the same module state, have the same
    outcome as soon as their registration loops behave alike. *)
Lemma templateRender_try_respects (lib : Imports) (name source : string)
    (entries1 entries2 : option (list EmailComponent))
    (options : option RenderOptions) (config : option Options) :
  (∀ i j,
     respects (agree i j)
       (register_components lib i (default false (config ?: config_verbose))
          (default [] entries1))
       (register_components lib j (default false (config ?: config_verbose))
          (default [] entries2))) →
  respects same_module
    (templateRender_try lib name
       {| code_source := source; code_components := entries1 |}
       options config)
    (templateRender_try lib name
       {| code_source := source; code_components := entries2 |}
       options config).
Proof.
  intros Hloop. unfold templateRender_try. cbn [code_source code_components].
  apply respects_bind; [relational|intros component].
  apply respects_bind; [relational|intros _].
  destruct component as [component|]; [|apply respects_throw].
  apply respects_bind; [relational|intros instance].
  apply respects_allocate. intros i j.
  apply respects_bind.
  { intros w1 w2 HR. split; [done|].
    by apply (observation_frame _ w1 w2). }
  intros _. apply respects_bind; [apply respects_update_app|intros _].
  apply respects_bind; [apply respects_update_app|intros _].
  apply respects_bind.
  { eapply respects_ext; [apply registration_guard..|apply Hloop]. }
  intros _. apply respects_bind; [apply install_i18n_respects|intros _].
  apply respects_bind; [relational|intros _].
  apply respects_bind; [apply respects_serialize|intros rendered].
  relational.
Qed.

Lemma templateRender_respects (lib : Imports) (name source : string)
    (entries1 entries2 : option (list EmailComponent))
    (options : option RenderOptions) (config : option Options) :
  (∀ i j,
     respects (agree i j)
       (register_components lib i (default false (config ?: config_verbose))
          (default [] entries1))
       (register_components lib j (default false (config ?: config_verbose))
          (default [] entries2))) →
  respects same_module
    (templateRender lib name
       {| code_source := source; code_components := entries1 |}
       options config)
    (templateRender lib name
       {| code_source := source; code_components := entries2 |}
       options config).
Proof.
  intros Hloop. unfold templateRender.
  apply respects_try_catch; [by apply templateRender_try_respects|].
  intros e. relational.
Qed.

(** ** Loading failures *)

Lemma loadComponent_returns (lib : Imports) (name source : string)
    (verbose : bool) (w : world) :
  fst (loadComponent lib name source verbose w)
  = Returned (loaded lib name source verbose).
Proof. by destruct (loadComponent_run lib name source verbose w). Qed.

Lemma loadComponent_compile_raises (lib : Imports) (name source : string)
    (verbose : bool) (w : world) (e : exn) :
  fst (compile lib (correctName (pascalCase lib) name) source verbose w)
  = Raised e →
  fst (loadComponent lib name source verbose w) = Returned None
  ∧ console (snd (loadComponent lib name source verbose w))
    = console
        (snd (compile lib (correctName (pascalCase lib) name) source
                verbose w))
      ++ [ConsoleError "Error loading component" e].
Proof.
  intros H. unfold loadComponent. rewrite try_catch_run, bind_run.
  destruct (compile _ _ _ _ w) as [[text|e'] w1]; simpl in *; by simplify_eq.
Qed.

Lemma loadComponent_import_raises (lib : Imports) (name source : string)
    (verbose : bool) (w : world) (text : string) (e : exn) :
  fst (compile lib (correctName (pascalCase lib) name) source verbose w)
  = Returned text →
  importModule lib text = Raised e →
  fst (loadComponent lib name source verbose w) = Returned None
  ∧ console (snd (loadComponent lib name source verbose w))
    = console
        (snd (compile lib (correctName (pascalCase lib) name) source
                verbose w))
      ++ [ConsoleError "Error loading component" e].
Proof.
  intros H Himport. unfold loadComponent. rewrite try_catch_run, bind_run.
  destruct (compile _ _ _ _ w) as [[text'|e'] w1]; simpl in *; simplify_eq.
  rewrite bind_run. simpl. by rewrite Himport.
Qed.

(** A failed load in the middle of the list changes nothing for the
    entries around it. *)
Lemma register_components_skip (lib : Imports) (i j : nat) (verbose : bool)
    (before after : list EmailComponent) (bad : EmailComponent) :
  loaded lib (correctName (pascalCase lib) (component_name bad))
    (component_source bad) verbose = None →
  respects (agree i j)
    (register_components lib i verbose (before ++ bad :: after))
    (register_components lib j verbose (before ++ after)).
Proof.
  intros Hbad. induction before as [|e rest IH]; simpl.
  - eapply respects_skip_left; [apply _|apply loadComponent_run|].
    rewrite Hbad.
    eapply respects_ext;
      [intros w; reflexivity|intros w; reflexivity|].
    apply register_components_respects.
  - unfold app_component. relational. apply IH.
Qed.

(** C5: [loadComponent] never raises, it logs and hands back nothing;
    when the root fails to load the render returns the empty string;
    when a listed sub-component fails to load the render returns what it
    returns without that entry. *)
Theorem load_failure_fatal_only_for_root (lib : Imports)
    (name source : string) (options : option RenderOptions)
    (config : option Options) (w : world) :
  let verbose := default false (config ?: config_verbose) in
  (∀ n s w0,
     (∃ o, fst (loadComponent lib n s verbose w0) = Returned o)
     ∧ ∀ e,
         fst (compile lib (correctName (pascalCase lib) n) s verbose w0)
         = Raised e →
         fst (loadComponent lib n s verbose w0) = Returned None
         ∧ console (snd (loadComponent lib n s verbose w0))
           = console
               (snd (compile lib (correctName (pascalCase lib) n) s
                       verbose w0))
             ++ [ConsoleError "Error loading component" e])
  ∧ (∀ n s w0 text e,
       fst (compile lib (correctName (pascalCase lib) n) s verbose w0)
       = Returned text →
       importModule lib text = Raised e →
       fst (loadComponent lib n s verbose w0) = Returned None
       ∧ console (snd (loadComponent lib n s verbose w0))
         = console
             (snd (compile lib (correctName (pascalCase lib) n) s
                     verbose w0))
           ++ [ConsoleError "Error loading component" e])
  ∧ (∀ entries,
       fst (loadComponent lib (correctName (pascalCase lib) name) source
              verbose w) = Returned None →
       fst (templateRender lib name
              {| code_source := source; code_components := entries |}
              options config w) = Returned "")
  ∧ (∀ before bad after,
       fst (loadComponent lib
              (correctName (pascalCase lib) (component_name bad))
              (component_source bad) verbose w) = Returned None →
       fst (templateRender lib name
              {| code_source := source;
                 code_components := Some (before ++ bad :: after) |}
              options config w)
       = fst (templateRender lib name
                {| code_source := source;
                   code_components := Some (before ++ after) |}
                options config w)).
Proof.
  intros verbose. split_and!.
  - intros n s w0. split.
    + eexists. apply loadComponent_returns.
    + intros e. apply loadComponent_compile_raises.
  - intros n s w0 text e. apply loadComponent_import_raises.
  - intros entries Hroot.
    unfold templateRender, templateRender_try.
    cbn [code_source]. fold verbose.
    rewrite try_catch_run, bind_run.
    destruct (loadComponent lib _ source verbose w) as [[o|e] w1];
      simpl in Hroot; simplify_eq.
    rewrite bind_run. by destruct verbose.
  - intros before bad after Hbad.
    rewrite loadComponent_returns in Hbad. simplify_eq.
    refine (proj1 (templateRender_respects lib name source
                     (Some (before ++ bad :: after)) (Some (before ++ after))
                     options config _ w w eq_refl)).
    intros i j. by apply register_components_skip.
Qed.

Lemma load_failure_fatal_only_for_root_witness :
  fst (templateRender Demo.lib "welcome:en"
         {| code_source := Demo.broken; code_components := None |}
         None None loaded_world) = Returned ""
  ∧ fst (templateRender Demo.lib "welcome:en"
           {| code_source := Demo.plain;
              code_components :=
                Some [ {| component_name := "Foo:bar";
                          component_source := Demo.broken |};
                       {| component_name := "Foo-baz";
                          component_source := Demo.styled |} ] |}
           None None loaded_world)
    = Returned (doctype +:+ "<p>Hi</p><!--module:FooBaz:-->").
Proof.
  split.
  - apply (load_failure_fatal_only_for_root Demo.lib "welcome:en"
             Demo.broken None None loaded_world).
    vm_compute. reflexivity.
  - destruct (load_failure_fatal_only_for_root Demo.lib "welcome:en"
                Demo.plain None None loaded_world) as (_ & _ & _ & Hskip).
    etrans.
    + apply (Hskip []
               {| component_name := "Foo:bar";
                  component_source := Demo.broken |}
               [ {| component_name := "Foo-baz";
                    component_source := Demo.styled |} ]).
      vm_compute. reflexivity.
    + vm_compute. reflexivity.
Defined.

(** ** What a run leaves behind *)

#[export] Instance untouched_shape (old : world) : Shape (untouched old).
Proof. intros w w' [? ?] ? ?. split; congruence. Qed.

#[export] Instance extended_shape (old : world) : Shape (extended old).
Proof.
  intros w w' [[a ?] ?] ? ?. split; [exists a|]; congruence.
Qed.

Lemma preserves_bind (I : world → Prop) {A B} (m : M A) (k : A → M B) :
  preserves I m → (∀ a, preserves I (k a)) → preserves I (bind m k).
Proof.
  intros Hm Hk w HI. rewrite bind_run. specialize (Hm w HI).
  destruct (m w) as [[a|e] w']; simpl in *; [by apply Hk|done].
Qed.

Lemma preserves_try_catch (I : world → Prop) {A} (m : M A)
    (h : exn → M A) :
  preserves I m → (∀ e, preserves I (h e)) → preserves I (try_catch m h).
Proof.
  intros Hm Hh w HI. rewrite try_catch_run. specialize (Hm w HI).
  destruct (m w) as [[a|e] w']; simpl in *; [done|by apply Hh].
Qed.

Lemma preserves_ret (I : world → Prop) {A} (a : A) : preserves I (ret a).
Proof. by intros w. Qed.

Lemma preserves_throw (I : world → Prop) {A} (e : exn) :
  preserves I (throw (A := A) e).
Proof. by intros w. Qed.

Lemma preserves_local (I : world → Prop) `{!Shape I} {A} (m : M A) :
  is_local m → preserves I m.
Proof.
  intros [r Hr] w HI. destruct (Hr w) as (_ & ? & ?).
  by apply (shape_frame w).
Qed.

Lemma preserves_read_components (I : world → Prop) :
  preserves I read_components.
Proof. by intros w. Qed.

Lemma preserves_serialize (lib : Imports) (I : world → Prop) `{!Shape I}
    (i : nat) :
  preserves I (serialize lib i).
Proof.
  intros w HI. unfold serialize. destruct (apps w !! i); [|done].
  by apply (shape_frame w).
Qed.

(** Updating the one new instance keeps the earlier ones. *)
Lemma preserves_update_new (old : world) (f : app → outcome app) :
  preserves (extended old) (update_app (length (apps old)) f).
Proof.
  intros w [[a Ha] Hm]. unfold update_app.
  destruct (apps w !! length (apps old)) as [a0|]; [|by split; eauto].
  destruct (f a0) as [a'|e]; [|by split; eauto].
  split; [|done]. exists a'. simpl. rewrite Ha.
  rewrite insert_app_r_alt, Nat.sub_diag by done. done.
Qed.

Ltac preserving :=
  repeat first
    [ apply preserves_ret
    | apply preserves_throw
    | apply preserves_update_new
    | apply preserves_serialize; apply _
    | apply preserves_read_components
    | apply preserves_local; [apply _|solve [locality]]
    | apply preserves_bind; [|intros ?]
    | apply preserves_try_catch; [|intros ?]
    | case_match ].

Lemma register_components_preserves (lib : Imports) (old : world)
    (verbose : bool) (entries : list EmailComponent) :
  preserves (extended old)
    (register_components lib (length (apps old)) verbose entries).
Proof.
  induction entries as [|e rest IH]; simpl; [apply preserves_ret|].
  unfold app_component. preserving. apply IH.
Qed.

Lemma install_i18n_preserves (lib : Imports) (old : world) (verbose : bool)
    (options : option RenderOptions) (config : option Options) :
  preserves (extended old)
    (install_i18n lib (length (apps old)) verbose options config).
Proof. unfold install_i18n, app_use. preserving. Qed.

(** A run of the [try] block leaves the earlier instances and the module
    state as they were, and makes at most one instance. *)
Lemma templateRender_try_leaves (lib : Imports) (name : string)
    (code : SourceOptions) (options : option RenderOptions)
    (config : option Options) (w : world) :
  let after := snd (templateRender_try lib name code options config w) in
  untouched w after ∨ extended w after.
Proof.
  unfold templateRender_try. rewrite bind_run.
  destruct (loadComponent_run lib (correctName (pascalCase lib) name)
              (code_source code) (default false (config ?: config_verbose)) w)
    as (_ & Ha1 & Hm1).
  destruct (loadComponent lib _ _ _ w) as [[component|e] w1];
    simpl in Ha1, Hm1; [|by left].
  rewrite bind_run.
  assert (untouched w
            (snd (when (default false (config ?: config_verbose))
                    (console_warn
                       (lightGreen lib "💌" +:+ " "
                        +:+ bold lib (blue lib "Generating output"))) w1)))
    as [Ha2 Hm2].
  { apply (preserves_local (untouched w)); [locality|done]. }
  destruct (when _ _ w1) as [[[]|e] w2]; simpl in Ha2, Hm2; [|by left].
  destruct component as [component|]; [|by left].
  rewrite bind_run. simpl.
  destruct (createApp lib component _) as [instance|e]; simpl; [|by left].
  rewrite bind_run. simpl. right. rewrite Ha2.
  match goal with
  | |- extended w (snd (bind ?m ?k ?w3)) =>
      apply (preserves_bind (extended w) m k)
  end.
  - apply preserves_local; [apply _|locality].
  - intros _. unfold set_performance, app_use.
    apply preserves_bind; [apply preserves_update_new|intros _].
    apply preserves_bind; [apply preserves_update_new|intros _].
    apply preserves_bind.
    { destruct (code_components code) as [[|first rest]|];
        [apply preserves_ret| |apply preserves_ret].
      apply (register_components_preserves lib w _ (first :: rest)). }
    intros _. apply preserves_bind; [apply install_i18n_preserves|intros _].
    preserving.
  - split; [|done]. simpl. eauto.
Qed.

Lemma templateRender_leaves (lib : Imports) (name : string)
    (code : SourceOptions) (options : option RenderOptions)
    (config : option Options) (w : world) :
  let after := snd (templateRender lib name code options config w) in
  untouched w after ∨ extended w after.
Proof.
  pose proof (templateRender_try_leaves lib name code options config w) as H.
  unfold templateRender. rewrite try_catch_run. simpl in H.
  destruct (templateRender_try lib name code options config w)
    as [[doc|e] w']; simpl in *; [done|].
  destruct H as [H|H];
    [ left; by apply (shape_frame (I := untouched w) w')
    | right; by apply (shape_frame (I := extended w) w') ].
Qed.

(** C9: a call leaves the module-level mapping and the instances of
    earlier calls as they were, works on at most one instance, which it
    makes itself, and what a call returns does not depend on the calls
    made before it: it is the same in every world with the same
    module-level mapping. *)
Theorem templateRender_shares_nothing (lib : Imports)
    (name1 name2 : string) (code1 code2 : SourceOptions)
    (options1 options2 : option RenderOptions)
    (config1 config2 : option Options) (w : world) :
  let after := snd (templateRender lib name1 code1 options1 config1 w) in
  module_components after = module_components w
  ∧ apps w `prefix_of` apps after
  ∧ length (apps after) ≤ S (length (apps w))
  ∧ fst (templateRender lib name2 code2 options2 config2 after)
    = fst (templateRender lib name2 code2 options2 config2 w)
  ∧ ∀ w', module_components w' = module_components w →
          fst (templateRender lib name2 code2 options2 config2 w')
          = fst (templateRender lib name2 code2 options2 config2 w).
Proof.
  intros after.
  assert (∀ w', module_components w' = module_components w →
            fst (templateRender lib name2 code2 options2 config2 w')
            = fst (templateRender lib name2 code2 options2 config2 w))
    as Hany.
  { intros w' Hm. destruct code2 as [source entries].
    refine (proj1 (templateRender_respects lib name2 source entries entries
                     options2 config2 _ w' w Hm)).
    intros i j. apply register_components_respects. }
  assert (module_components after = module_components w
          ∧ apps w `prefix_of` apps after
          ∧ length (apps after) ≤ S (length (apps w))) as (Hm & Hp & Hl).
  { destruct (templateRender_leaves lib name1 code1 options1 config1 w)
      as [[Ha Hm]|[[a Ha] Hm]]; fold after in Ha, Hm;
      (split; [done|]); rewrite Ha.
    - split; [done|lia].
    - split; [by apply prefix_app_r|]. rewrite length_app. simpl. lia. }
  split_and!; auto.
Qed.

Lemma templateRender_shares_nothing_witness :
  fst (templateRender Demo.lib "welcome:en"
         {| code_source := Demo.plain; code_components := None |} None None
         (snd (templateRender Demo.lib "newsletter"
                 {| code_source := Demo.scripted;
                    code_components :=
                      Some [ {| component_name := "Foo:bar";
                                component_source := Demo.styled |} ] |}
                 None None loaded_world)))
  = Returned (doctype +:+ "<p>Hi</p><!--module::-->").
Proof.
  destruct (templateRender_shares_nothing Demo.lib "newsletter" "welcome:en"
              {| code_source := Demo.scripted;
                 code_components :=
                   Some [ {| component_name := "Foo:bar";
                             component_source := Demo.styled |} ] |}
              {| code_source := Demo.plain; code_components := None |}
              None None None None loaded_world) as (_ & _ & _ & Hsame & _).
  etrans; [exact Hsame|]. vm_compute. reflexivity.
Defined.

(** ** Registration of sub-components *)

(** One turn of the loop: the entry is loaded; when that yields a
    definition, the instance's mapping binds the normalised name to it,
    with the built-in primitives under [components]. *)
Lemma register_components_turn (lib : Imports) (i : nat) (verbose : bool)
    (e : EmailComponent) (rest : list EmailComponent) (w : world) (a : app) :
  apps w !! i = Some a →
  let componentName := correctName (pascalCase lib) (component_name e) in
  ∃ w2 a2,
    register_components lib i verbose (e :: rest) w
    = register_components lib i verbose rest w2
    ∧ module_components w2 = module_components w
    ∧ apps w2 !! i = Some a2
    ∧ app_components a2
      = match loaded lib componentName (component_source e) verbose with
        | Some d =>
            <[componentName :=
                <["components" := VPrimitives (module_components w)]> d]>
              (app_components a)
        | None => app_components a
        end.
Proof.
  intros Ha componentName. cbn [register_components]. fold componentName.
  rewrite bind_run.
  destruct (loadComponent_run lib componentName (component_source e)
              verbose w) as (Hfst & Ha1 & Hm1).
  destruct (loadComponent lib componentName (component_source e) verbose w)
    as [[o|e0] w1]; simpl in Hfst, Ha1, Hm1; simplify_eq.
  destruct (loaded lib componentName (component_source e) verbose)
    as [d|].
  - set (a2 :=
           {| app_root := app_root a; app_props := app_props a;
              app_performance := app_performance a;
              app_components :=
                <[componentName :=
                    <["components" := VPrimitives (module_components w)]> d]>
                  (app_components a);
              app_provides := app_provides a |}).
    exists (set_apps w1 (<[i := a2]> (apps w1))), a2.
    split_and!; [|done| |done].
    + unfold bind, read_components, app_component, update_app.
      rewrite Ha1, Ha, Hm1. reflexivity.
    + simpl. rewrite Ha1. apply list_lookup_insert_eq.
      by eapply lookup_lt_Some.
  - exists w1, a. rewrite bind_run. simpl. by rewrite Ha1.
Qed.

(** Entries that do not bind [n] leave its binding as it is. *)
Lemma register_components_keeps (lib : Imports) (i : nat) (verbose : bool)
    (n : string) (entries : list EmailComponent) (w : world) (a : app) :
  apps w !! i = Some a →
  (∀ e, e ∈ entries →
        correctName (pascalCase lib) (component_name e) = n →
        loaded lib n (component_source e) verbose = None) →
  ∃ a', apps (snd (register_components lib i verbose entries w)) !! i
        = Some a'
        ∧ app_components a' !! n = app_components a !! n.
Proof.
  revert w a. induction entries as [|e rest IH]; intros w a Ha Hnone.
  - by exists a.
  - destruct (register_components_turn lib i verbose e rest w a Ha)
      as (w2 & a2 & -> & _ & Ha2 & Hreg).
    destruct (IH w2 a2 Ha2) as (a' & Ha' & Hlook).
    { intros e' He'. apply Hnone. by right. }
    exists a'. split; [done|]. rewrite Hlook, Hreg.
    destruct (decide (correctName (pascalCase lib) (component_name e) = n))
      as [Heq|Hne].
    + rewrite Heq, (Hnone e) by (done || by left). done.
    + destruct (loaded _ _ _ _); [|done]. by rewrite lookup_insert_ne.
Qed.

(** C8: after the loop, a normalised name is bound to the definition of
    the last entry in the list that normalises to it and loads; an
    earlier entry with the same normalised name is overwritten. *)
Theorem last_registration_wins (lib : Imports) (i : nat) (verbose : bool)
    (before after : list EmailComponent) (e : EmailComponent)
    (w : world) (a : app) (d : definition) :
  let n := correctName (pascalCase lib) (component_name e) in
  apps w !! i = Some a →
  fst (loadComponent lib n (component_source e) verbose w)
  = Returned (Some d) →
  (∀ e', e' ∈ after →
         correctName (pascalCase lib) (component_name e') = n →
         fst (loadComponent lib n (component_source e') verbose w)
         = Returned None) →
  ∃ a',
    apps (snd (register_components lib i verbose (before ++ e :: after) w))
      !! i = Some a'
    ∧ app_components a' !! n
      = Some (<["components" := VPrimitives (module_components w)]> d).
Proof.
  intros n Ha Hload Hafter.
  rewrite loadComponent_returns in Hload. injection Hload as Hload.
  assert (∀ e', e' ∈ after →
            correctName (pascalCase lib) (component_name e') = n →
            loaded lib n (component_source e') verbose = None) as Hnone.
  { intros e' He' Hn. specialize (Hafter e' He' Hn).
    rewrite loadComponent_returns in Hafter. by injection Hafter. }
  clear Hafter. revert w a Ha.
  induction before as [|b before IH]; intros w a Ha.
  - rewrite app_nil_l.
    destruct (register_components_turn lib i verbose e after w a Ha)
      as (w2 & a2 & -> & _ & Ha2 & Hreg).
    fold n in Hreg. rewrite Hload in Hreg.
    destruct (register_components_keeps lib i verbose n after w2 a2 Ha2 Hnone)
      as (a' & Ha' & Hlook).
    exists a'. split; [done|]. by rewrite Hlook, Hreg, lookup_insert_eq.
  - rewrite <- app_comm_cons.
    destruct (register_components_turn lib i verbose b (before ++ e :: after)
                w a Ha) as (w2 & a2 & -> & Hm & Ha2 & _).
    rewrite <- Hm. by apply (IH w2 a2).
Qed.

Lemma last_registration_wins_witness :
  loaded Demo.lib "FooBar" Demo.plain false
  ≠ loaded Demo.lib "FooBar" Demo.styled false
  ∧ ∃ a',
    apps
      (snd (register_components Demo.lib 0 false
              ([ {| component_name := "Foo:bar";
                    component_source := Demo.plain |} ]
               ++ {| component_name := "Foo-bar";
                     component_source := Demo.styled |} :: [])
              (snd (allocate Demo.blank loaded_world))))
      !! 0 = Some a'
    ∧ app_components a' !! correctName Scule.pascalCase "Foo-bar"
      = Some
          (<["components" :=
               VPrimitives
                 (module_components (snd (allocate Demo.blank loaded_world)))]>
             (default ∅
                (loaded Demo.lib "FooBar" Demo.styled false))).
Proof.
  split.
  { intros H. apply (f_equal (λ o, o ≫= (.!! "render"))) in H.
    vm_compute in H. discriminate. }
  apply (last_registration_wins Demo.lib 0 false
           [ {| component_name := "Foo:bar";
                component_source := Demo.plain |} ]
           []
           {| component_name := "Foo-bar";
              component_source := Demo.styled |}
           (snd (allocate Demo.blank loaded_world)) Demo.blank).
  - reflexivity.
  - vm_compute. reflexivity.
  - intros e' He'. by apply elem_of_nil in He'.
Defined.

(** ** Localisation *)

Lemma resolved_locale_nonempty (options : option RenderOptions)
    (config : option Options) :
  truthy_string (Some (resolved_locale options config)) = true.
Proof.
  unfold resolved_locale, or_string.
  destruct (truthy_string (call_defaultLocale options)) eqn:H1.
  - rewrite H1. by destruct (call_defaultLocale options).
  - destruct (truthy_string (config_defaultLocale config)) eqn:H2; [|done].
    by destruct (config_defaultLocale config).
Qed.

Lemma engine_calls_app (l1 l2 : list call) :
  engine_calls (l1 ++ l2) = engine_calls l1 ++ engine_calls l2.
Proof. apply omap_app. Qed.

(** C10: with localisation intent present, the resolved locale is never
    empty, and is [en] when neither the call nor the configuration gives
    a default locale; the guard on it always passes, so the step
    constructs the engine with that locale, and installs it on the
    instance whenever construction and installation do not raise. *)
Theorem i18n_locale_defaults_to_en (lib : Imports) (i : nat)
    (verbose : bool) (options : option RenderOptions)
    (config : option Options) (w : world) :
  hasI18n options config = true →
  let resolved := resolved_locale options config in
  let after := snd (install_i18n lib i verbose options config w) in
  let engine :=
    {| locale := resolved; fallbackLocale := resolved;
       messages := resolved_translations options config;
       silentFallbackWarn := negb verbose;
       silentTranslationWarn := negb verbose;
       warnHtmlInMessage := "off" |} in
  resolved ≠ ""
  ∧ (truthy_string (call_defaultLocale options) = false →
     truthy_string (config_defaultLocale config) = false →
     resolved = "en")
  ∧ engine_calls (calls after) = engine_calls (calls w) ++ [engine]
  ∧ (∀ p a a',
       createI18n lib engine = Returned p →
       apps w !! i = Some a → p a = Returned a' →
       fst (install_i18n lib i verbose options config w) = Returned tt
       ∧ apps after !! i = Some a').
Proof.
  intros Hintent resolved after engine.
  pose proof (resolved_locale_nonempty options config) as Hne.
  fold resolved in Hne. split_and!.
  - intros Heq. rewrite Heq in Hne. done.
  - intros H1 H2. unfold resolved, resolved_locale, or_string.
    by rewrite H1, H2.
  - unfold after, install_i18n. rewrite Hintent. fold resolved.
    rewrite Hne. fold engine.
    unfold bind, try_catch, when, console_warn, log, invoke, app_use,
      update_app, throw, ret.
    destruct verbose; simpl;
      (destruct (createI18n lib engine) as [p|e]; simpl;
       [destruct (apps w !! i) as [a|]; simpl;
        [destruct (p a) as [a'|e']; simpl|]|]);
      rewrite ?engine_calls_app; simpl;
      by rewrite ?app_nil_r, <- ?(assoc (++)).
  - intros p a a' Hp Ha Hpa.
    unfold after, install_i18n. rewrite Hintent. fold resolved.
    rewrite Hne. fold engine.
    unfold bind, try_catch, when, console_warn, log, invoke, app_use,
      update_app, throw, ret.
    destruct verbose; simpl; rewrite Hp; simpl; rewrite Ha, Hpa; simpl;
      (split; [done|]); apply list_lookup_insert_eq;
      by eapply lookup_lt_Some.
Qed.

Lemma i18n_locale_defaults_to_en_witness :
  resolved_locale
    (Some {| render_props := None;
             render_i18n :=
               Some {| defaultLocale := None;
                       translations := Some {[ "fr" := ∅ ]} |} |})
    None = "en".
Proof.
  destruct (i18n_locale_defaults_to_en Demo.lib 0 false
              (Some {| render_props := None;
                       render_i18n :=
                         Some {| defaultLocale := None;
                                 translations := Some {[ "fr" := ∅ ]} |} |})
              None loaded_world eq_refl) as (_ & Hen & _).
  apply Hen; reflexivity.
Defined.

(** * Further properties of the code *)

(** ** Names *)

Lemma replaceAll_app (c : ascii) (rep s t : string) :
  JsString.replaceAll c rep (s +:+ t)
  = JsString.replaceAll c rep s +:+ JsString.replaceAll c rep t.
Proof.
  induction s as [|a s IH]; [done|].
  rewrite app_cons. simpl. by rewrite IH, app_assoc_string.
Qed.

Lemma replaceAll_keeps_absent (c d a : ascii) (s : string) :
  a ≠ d → ¬ JsString.mem a s →
  ¬ JsString.mem a (JsString.replaceAll c (String d "") s).
Proof.
  intros Had Hno. rewrite mem_chars, replaceAll_chars.
  intros (b & Hb & Hin)%list_elem_of_fmap. rewrite mem_chars in Hno.
  destruct (Ascii.eqb b c); congruence.
Qed.

(** The extension at the end of a text without dots is the occurrence
    that [replace] removes. *)
Lemma replace_trailing_extension (s q : string) :
  ¬ JsString.mem "." s →
  JsString.replace ".vue" "" (s +:+ ".vue" +:+ q) = s +:+ q.
Proof.
  unfold JsString.mem. remember (".vue" +:+ q) as r eqn:Hr.
  induction s as [|a s IH]; intros Hno.
  - rewrite !app_empty_l, replace_unfold, Hr.
    by rewrite (strip_prefix_complete ".vue" q).
  - rewrite !app_cons, replace_unfold. simpl in Hno.
    assert (a ≠ "."%char) as Ha by tauto.
    assert (JsString.strip_prefix ".vue" (String a (s +:+ r)) = None)
      as ->.
    { cbn [JsString.strip_prefix].
      by destruct (Ascii.eqb_spec "." a) as [<-|_]. }
    rewrite IH by tauto. done.
Qed.

(** X1: a name and the same name with hyphens in place of its colons
    normalise alike, so two such entries are registered under one
    name. *)
Theorem correctName_colon_as_hyphen (pascalCase : string → string)
    (name : string) :
  correctName pascalCase (JsString.replaceAll ":" "-" name)
  = correctName pascalCase name.
Proof.
  unfold correctName. rewrite (replaceAll_without ":" "-"); [done|].
  by apply replaceAll_removes.
Qed.

(** X2: for a name without dots, the file name with the extension
    normalises to what the bare name normalises to. *)
Theorem correctName_drops_extension (pascalCase : string → string)
    (name : string) :
  ¬ JsString.mem "." name →
  correctName pascalCase (name +:+ ".vue") = correctName pascalCase name.
Proof.
  intros Hno. unfold correctName. rewrite replaceAll_app.
  change (JsString.replaceAll ":" "-" ".vue") with (".vue" +:+ "").
  assert (¬ JsString.mem "." (JsString.replaceAll ":" "-" name)) as Hdot
    by by apply replaceAll_keeps_absent.
  rewrite replace_trailing_extension, app_empty_r by done.
  rewrite replace_without_occurrence; [done|].
  intros Hocc. apply Hdot.
  by eapply (occurs_mem "." ".vue"); [vm_compute; auto|].
Qed.

Lemma correctName_drops_extension_witness :
  correctName Scule.pascalCase ("mail:welcome" +:+ ".vue")
  = correctName Scule.pascalCase "mail:welcome".
Proof.
  apply (correctName_drops_extension Scule.pascalCase "mail:welcome").
  vm_compute. intuition discriminate.
Defined.

(** ** The source compiler, further *)

Ltac run_compile :=
  unfold compile, bind, when, console_warn, log, invoke, ret, throw;
  simpl;
  repeat match goal with
         | |- context [parse ?l ?s ?f] =>
             destruct (parse l s f) as [?|?] eqn:?; simpl
         | |- context [bool_decide (errors ?p = [])] =>
             destruct (bool_decide (errors p = [])) eqn:?; simpl
         | |- context [bool_decide ?P || bool_decide ?Q] =>
             destruct (bool_decide P || bool_decide Q) eqn:?; simpl
         | |- context [compileScript ?l ?d ?o] =>
             destruct (compileScript l d o) as [?|?] eqn:?; simpl
         | |- context [descriptor_styles ?d] =>
             destruct (descriptor_styles d) as [|? ?] eqn:?; simpl
         | |- context [compileStyle ?l ?o] =>
             destruct (compileStyle l o) as [?|?] eqn:?; simpl
         | |- context [descriptor_template ?d] =>
             destruct (descriptor_template d) as [?|] eqn:?; simpl
         | |- context [compileTemplate ?l ?o] =>
             destruct (compileTemplate l o) as [?|?] eqn:?; simpl
         end.

(** X3: verbosity changes nothing of a compilation but the console:
    the outcome and the calls are the same, one notice is written when
    verbose and nothing when not. *)
Theorem compile_verbose_only_logs (lib : Imports) (filename source : string)
    (w : world) :
  fst (compile lib filename source true w)
  = fst (compile lib filename source false w)
  ∧ calls (snd (compile lib filename source true w))
    = calls (snd (compile lib filename source false w))
  ∧ console (snd (compile lib filename source true w))
    = console w ++ [Warn (compiling_notice lib filename)]
  ∧ console (snd (compile lib filename source false w)) = console w.
Proof. run_compile; done. Qed.

Ltac settle_calls :=
  repeat match goal with
         | H : _ ∈ [] |- _ => by apply elem_of_nil in H
         | H : _ ∈ [_] |- _ => apply list_elem_of_singleton in H; subst
         | H : is_Some None |- _ => by destruct H
         | H : _ ∨ _ |- _ => destruct H
         end.

(** X4: the template is compiled at most once, from the content of the
    template block, under the file name and the descriptor's id; it is
    given the bindings of the compiled script when there is a script
    block, and no bindings when there is none, in which case no script
    is compiled either. *)
Theorem compile_template_options (lib : Imports) (filename source : string)
    (verbose : bool) (w : world) (parsed : SFCParseResult) :
  parse lib source filename = Returned parsed →
  errors parsed = [] →
  let d := descriptor parsed in
  let o_script :=
    {| script_id := descriptor_filename d;
       genDefaultAs := scriptIdentifier |} in
  ∃ new,
    calls (snd (compile lib filename source verbose w)) = calls w ++ new
    ∧ length (template_calls new) ≤ 1
    ∧ (∀ o, o ∈ template_calls new →
         template_filename o = filename
         ∧ template_id o = descriptor_filename d
         ∧ ∃ t, descriptor_template d = Some t
                ∧ template_source o = template_content t)
    ∧ (descriptor_script d = None → descriptor_scriptSetup d = None →
       script_calls new = []
       ∧ ∀ o, o ∈ template_calls new → bindingMetadata o = None)
    ∧ (is_Some (descriptor_script d) ∨ is_Some (descriptor_scriptSetup d) →
       ∀ o, o ∈ template_calls new →
         ∃ s, compileScript lib d o_script = Returned s
              ∧ bindingMetadata o = Some (script_bindings s)).
Proof.
  intros Hparse Herr d o_script.
  unfold compile, bind, when, console_warn, log, invoke, ret, throw.
  destruct verbose; simpl; rewrite Hparse; simpl; rewrite Herr; simpl;
    fold d; fold o_script;
    destruct (descriptor_script d) as [s1|] eqn:Hs1;
    destruct (descriptor_scriptSetup d) as [s2|] eqn:Hs2; simpl;
    try (destruct (compileScript lib d o_script) as [s|e] eqn:Hs; simpl);
    try (destruct (descriptor_styles d) as [|first rest] eqn:Hst; simpl);
    try match goal with
        | |- context [compileStyle lib ?o] =>
            destruct (compileStyle lib o) as [st|e'] eqn:Hstyle; simpl
        end;
    try (destruct (descriptor_template d) as [t|] eqn:Ht; simpl);
    try match goal with
        | |- context [compileTemplate lib ?o] =>
            destruct (compileTemplate lib o) as [tpl|e''] eqn:Htpl; simpl
        end;
    eexists; (split; [by rewrite <- ?(assoc (++))|]); simpl;
    (split; [lia|]);
    repeat split; intros; settle_calls; simplify_eq; simpl; eauto.
Qed.

Lemma compile_template_options_witness :
  ∃ new,
    calls (snd (compile Demo.lib "Welcome" Demo.scripted false loaded_world))
    = calls loaded_world ++ new
    ∧ length (template_calls new) ≤ 1.
Proof.
  destruct (compile_template_options Demo.lib "Welcome" Demo.scripted false
              loaded_world
              {| descriptor :=
                   Demo.block "Welcome"
                     (Some {| script_content := "export default {}";
                              script_bindings := ∅ |})
                     [ {| style_content := "p{}"; style_scoped := false |} ];
                 errors := [] |} eq_refl eq_refl)
    as (new & Hcalls & Hone & _).
  exists new. split; [exact Hcalls|exact Hone].
Defined.

(** X5: a source in which the parse finds no template block never
    compiles, whatever else it holds: [compile] raises, and
    [loadComponent] hands back nothing. *)
Theorem loadComponent_without_template (lib : Imports)
    (name source : string) (verbose : bool) (w : world)
    (parsed : SFCParseResult) :
  parse lib source (correctName (pascalCase lib) name) = Returned parsed →
  errors parsed = [] →
  descriptor_template (descriptor parsed) = None →
  (∃ e, fst (compile lib (correctName (pascalCase lib) name) source
               verbose w) = Raised e)
  ∧ fst (loadComponent lib name source verbose w) = Returned None.
Proof.
  intros Hparse Herr Htemplate.
  assert (∃ e, fst (compile lib (correctName (pascalCase lib) name) source
                      verbose w) = Raised e) as [e He].
  { unfold compile, bind, when, console_warn, log, invoke, ret, throw.
    destruct verbose; simpl; rewrite Hparse; simpl; rewrite Herr; simpl;
      rewrite Htemplate;
      repeat match goal with
             | |- context [bool_decide ?P || bool_decide ?Q] =>
                 destruct (bool_decide P || bool_decide Q); simpl
             | |- context [compileScript ?l ?d ?o] =>
                 destruct (compileScript l d o) as [?|?]; simpl
             | |- context [descriptor_styles ?d] =>
                 destruct (descriptor_styles d) as [|? ?]; simpl
             | |- context [compileStyle ?l ?o] =>
                 destruct (compileStyle l o) as [?|?]; simpl
             end; eauto. }
  split; [by exists e|].
  by destruct (loadComponent_compile_raises lib name source verbose w e He).
Qed.

Lemma loadComponent_without_template_witness :
  (∃ e, fst (compile Variants.without_template
               (correctName (pascalCase Variants.without_template) "card")
               "<script>export default {}</script>" false loaded_world)
        = Raised e)
  ∧ fst (loadComponent Variants.without_template "card"
           "<script>export default {}</script>" false loaded_world)
    = Returned None.
Proof.
  apply (loadComponent_without_template Variants.without_template "card"
           "<script>export default {}</script>" false loaded_world
           {| descriptor :=
                {| descriptor_filename := "Card";
                   descriptor_template := None;
                   descriptor_script :=
                     Some {| script_content :=
                               "<script>export default {}</script>";
                             script_bindings := ∅ |};
                   descriptor_scriptSetup := None;
                   descriptor_styles := [] |};
              errors := [] |}); reflexivity.
Defined.






(** ** Registration, further *)

Lemma register_components_turn_frame (lib : Imports) (i : nat)
    (verbose : bool) (e : EmailComponent) (rest : list EmailComponent)
    (w : world) (a : app) :
  apps w !! i = Some a →
  let componentName := correctName (pascalCase lib) (component_name e) in
  ∃ w2 a2,
    register_components lib i verbose (e :: rest) w
    = register_components lib i verbose rest w2
    ∧ apps w2 !! i = Some a2
    ∧ app_root a2 = app_root a
    ∧ app_props a2 = app_props a
    ∧ app_performance a2 = app_performance a
    ∧ app_provides a2 = app_provides a
    ∧ ∀ n, is_Some (app_components a2 !! n)
           ↔ is_Some (app_components a !! n)
             ∨ (componentName = n
                ∧ is_Some (loaded lib n (component_source e) verbose)).
Proof.
  intros Ha componentName. cbn [register_components]. fold componentName.
  rewrite bind_run.
  destruct (loadComponent_run lib componentName (component_source e)
              verbose w) as (Hfst & Ha1 & Hm1).
  destruct (loadComponent lib componentName (component_source e) verbose w)
    as [[o|e0] w1]; simpl in Hfst, Ha1, Hm1; simplify_eq.
  destruct (loaded lib componentName (component_source e) verbose)
    as [d|] eqn:Hload.
  - set (a2 :=
           {| app_root := app_root a; app_props := app_props a;
              app_performance := app_performance a;
              app_components :=
                <[componentName :=
                    <["components" := VPrimitives (module_components w)]> d]>
                  (app_components a);
              app_provides := app_provides a |}).
    exists (set_apps w1 (<[i := a2]> (apps w1))), a2.
    split_and!; try done.
    + unfold bind, read_components, app_component, update_app.
      rewrite Ha1, Ha, Hm1. reflexivity.
    + simpl. rewrite Ha1. apply list_lookup_insert_eq.
      by eapply lookup_lt_Some.
    + intros n. simpl. destruct (decide (componentName = n)) as [<-|Hne].
      * rewrite lookup_insert_eq, Hload. split; [right|]; eauto.
      * rewrite lookup_insert_ne by done. split; [by left|].
        by intros [?|[? _]].
  - exists w1, a. rewrite bind_run. simpl. rewrite Ha1.
    split_and!; try done. intros n. split; [by left|].
    intros [?|[<- Hsome]]; [done|]. rewrite Hload in Hsome.
    by destruct Hsome.
Qed.

(** X9: on an instance that exists, the registration loop never raises
    and changes nothing of the instance but its mapping of components;
    after it a name is registered exactly when it was registered before
    or is the normalised name of an entry that loads. *)
Theorem register_components_only_registers (lib : Imports) (i : nat)
    (verbose : bool) (entries : list EmailComponent) (w : world) (a : app) :
  apps w !! i = Some a →
  fst (register_components lib i verbose entries w) = Returned tt
  ∧ ∃ a',
      apps (snd (register_components lib i verbose entries w)) !! i
      = Some a'
      ∧ app_root a' = app_root a
      ∧ app_props a' = app_props a
      ∧ app_performance a' = app_performance a
      ∧ app_provides a' = app_provides a
      ∧ ∀ n, is_Some (app_components a' !! n)
             ↔ is_Some (app_components a !! n)
               ∨ ∃ e, e ∈ entries
                      ∧ correctName (pascalCase lib) (component_name e) = n
                      ∧ is_Some
                          (loaded lib n (component_source e) verbose).
Proof.
  revert w a. induction entries as [|e rest IH]; intros w a Ha.
  - split; [done|]. exists a. split_and!; try done.
    intros n. split; [by left|]. intros [?|(e & He & _)]; [done|].
    by apply elem_of_nil in He.
  - destruct (register_components_turn_frame lib i verbose e rest w a Ha)
      as (w2 & a2 & -> & Ha2 & Hr & Hp & Hf & Hv & Hdom).
    destruct (IH w2 a2 Ha2) as (Hfst & a' & Ha' & Hr' & Hp' & Hf' & Hv' & Hdom').
    split; [done|]. exists a'. split_and!; try congruence.
    intros n. rewrite Hdom', Hdom. split.
    + intros [[?|[Hn Hl]]|(e' & He' & Hn & Hl)]; [by left|right..].
      * exists e. split_and!; [by left|done..].
      * exists e'. split_and!; [by right|done..].
    + intros [?|(e' & [->|He']%elem_of_cons & Hn & Hl)];
        [by left; left|by left; right|right].
      by exists e'.
Qed.

Lemma register_components_only_registers_witness :
  fst (register_components Demo.lib 0 false
         [ {| component_name := "Foo:bar";
              component_source := Demo.broken |};
           {| component_name := "Foo-baz";
              component_source := Demo.styled |} ]
         (snd (allocate Demo.blank loaded_world))) = Returned tt.
Proof.
  apply (register_components_only_registers Demo.lib 0 false
           [ {| component_name := "Foo:bar";
                component_source := Demo.broken |};
             {| component_name := "Foo-baz";
                component_source := Demo.styled |} ]
           (snd (allocate Demo.blank loaded_world)) Demo.blank).
  reflexivity.
Defined.

(** X10: every definition found in the mapping after the loop was there
    before or is the definition loaded for an entry of that name with
    the built-in primitives put under [components], in place of
    whatever the loaded definition held under that key; its other keys
    are those of the loaded definition. *)
Theorem registered_definitions_carry_primitives (lib : Imports) (i : nat)
    (verbose : bool) (entries : list EmailComponent) (w : world) (a : app) :
  apps w !! i = Some a →
  ∃ a',
    apps (snd (register_components lib i verbose entries w)) !! i = Some a'
    ∧ ∀ n d',
        app_components a' !! n = Some d' →
        app_components a !! n = Some d'
        ∨ ∃ e d,
            e ∈ entries
            ∧ correctName (pascalCase lib) (component_name e) = n
            ∧ loaded lib n (component_source e) verbose = Some d
            ∧ d' !! "components"
              = Some (VPrimitives (module_components w))
            ∧ ∀ k, k ≠ "components" → d' !! k = d !! k.
Proof.
  revert w a. induction entries as [|e rest IH]; intros w a Ha.
  - exists a. split; [done|]. by left.
  - destruct (register_components_turn lib i verbose e rest w a Ha)
      as (w2 & a2 & -> & Hm & Ha2 & Hreg).
    destruct (IH w2 a2 Ha2) as (a' & Ha' & Hvalues).
    exists a'. split; [done|]. intros n d' Hd'.
    destruct (Hvalues n d' Hd') as [Hold|(e' & d & He' & Hn & Hl & Hc & Hk)].
    + rewrite Hreg in Hold.
      destruct (loaded lib _ (component_source e) verbose) as [d|] eqn:Hl;
        [|by left].
      destruct (decide (correctName (pascalCase lib) (component_name e) = n))
        as [Hn|Hne].
      * rewrite Hn, lookup_insert_eq in Hold. simplify_eq. right.
        exists e, d. split_and!; [by left|done|done| |].
        -- by rewrite lookup_insert_eq.
        -- intros k Hk. by rewrite lookup_insert_ne.
      * rewrite lookup_insert_ne in Hold by done. by left.
    + right. exists e', d. rewrite <- Hm. split_and!; [by right|done..].
Qed.

Lemma registered_definitions_carry_primitives_witness :
  ∃ a',
    apps
      (snd (register_components Demo.lib 0 false
              [ {| component_name := "Foo-baz";
                   component_source := Demo.styled |} ]
              (snd (allocate Demo.blank loaded_world)))) !! 0 = Some a'.
Proof.
  destruct (registered_definitions_carry_primitives Demo.lib 0 false
              [ {| component_name := "Foo-baz";
                   component_source := Demo.styled |} ]
              (snd (allocate Demo.blank loaded_world)) Demo.blank eq_refl)
    as (a' & Ha' & _).
  by exists a'.
Defined.

(** ** What a render writes and calls *)

#[export] Instance quiet_console_only (old : world) :
  ConsoleOnly (quiet old).
Proof. intros w w' H Hc. unfold quiet in *. by rewrite Hc. Qed.

#[export] Instance engineless_calls_only (old : world) :
  CallsOnly (engineless old).
Proof. intros w w' H Hc. unfold engineless in *. by rewrite Hc. Qed.

Lemma console_only_invoke (I : world → Prop) `{!ConsoleOnly I} {A}
    (c : call) (r : outcome A) :
  preserves I (invoke c r).
Proof. intros w HI. by apply (console_only w). Qed.

Lemma console_only_update_app (I : world → Prop) `{!ConsoleOnly I}
    (i : nat) (f : app → outcome app) :
  preserves I (update_app i f).
Proof.
  intros w HI. unfold update_app. destruct (apps w !! i); [|done].
  destruct (f _); [|done]. by apply (console_only w).
Qed.

Lemma console_only_allocate (I : world → Prop) `{!ConsoleOnly I}
    (a : app) :
  preserves I (allocate a).
Proof. intros w HI. by apply (console_only w). Qed.

Lemma console_only_serialize (lib : Imports) (I : world → Prop)
    `{!ConsoleOnly I} (i : nat) :
  preserves I (serialize lib i).
Proof.
  intros w HI. unfold serialize. destruct (apps w !! i); [|done].
  by apply (console_only w).
Qed.

Lemma quiet_console_error (old : world) (label : string) (e : exn) :
  preserves (quiet old) (console_error label e).
Proof.
  intros w HI. unfold quiet in *. simpl. unfold warnings in *.
  by rewrite omap_app, app_nil_r.
Qed.

Ltac quietly :=
  repeat first
    [ apply preserves_ret
    | apply preserves_throw
    | apply quiet_console_error
    | apply console_only_invoke; apply _
    | apply console_only_update_app; apply _
    | apply console_only_allocate; apply _
    | apply console_only_serialize; apply _
    | apply preserves_read_components
    | apply preserves_bind; [|intros ?]
    | apply preserves_try_catch; [|intros ?]
    | case_match ].

Lemma compile_quiet (lib : Imports) (old : world) (filename source : string) :
  preserves (quiet old) (compile lib filename source false).
Proof. unfold compile. quietly. Qed.

Lemma loadComponent_quiet (lib : Imports) (old : world)
    (name source : string) :
  preserves (quiet old) (loadComponent lib name source false).
Proof.
  unfold loadComponent.
  apply preserves_try_catch; [|intros e; quietly].
  apply preserves_bind; [apply compile_quiet|intros text]. quietly.
Qed.

Lemma register_components_quiet (lib : Imports) (old : world) (i : nat)
    (entries : list EmailComponent) :
  preserves (quiet old) (register_components lib i false entries).
Proof.
  induction entries as [|e rest IH]; simpl; [apply preserves_ret|].
  apply preserves_bind; [apply loadComponent_quiet|intros o].
  apply preserves_bind; [|intros _; apply IH].
  unfold app_component. quietly.
Qed.

Lemma install_i18n_quiet (lib : Imports) (old : world) (i : nat)
    (options : option RenderOptions) (config : option Options) :
  preserves (quiet old) (install_i18n lib i false options config).
Proof. unfold install_i18n, app_use. quietly. Qed.

(** X11: unless the configuration asks for verbosity, none of the
    [console.warn] statements of the file is run by a render: of what
    the file itself writes to the console, only error entries can be
    added.  What the imported libraries write is not recorded in
    [console]. *)
Theorem templateRender_quiet_unless_verbose (lib : Imports) (name : string)
    (code : SourceOptions) (options : option RenderOptions)
    (config : option Options) (w : world) :
  default false (config ?: config_verbose) = false →
  warnings (console (snd (templateRender lib name code options config w)))
  = warnings (console w).
Proof.
  intros Hquiet.
  enough (preserves (quiet w) (templateRender lib name code options config))
    as H by by apply H.
  unfold templateRender, templateRender_try. rewrite Hquiet.
  apply preserves_try_catch; [|intros e; quietly].
  apply preserves_bind; [apply loadComponent_quiet|intros component].
  apply preserves_bind; [apply preserves_ret|intros _].
  destruct component as [component|]; [|apply preserves_throw].
  apply preserves_bind; [quietly|intros instance].
  apply preserves_bind; [quietly|intros app].
  apply preserves_bind; [quietly|intros _].
  apply preserves_bind; [unfold app_use; quietly|intros _].
  apply preserves_bind; [unfold set_performance; quietly|intros _].
  apply preserves_bind.
  { destruct (code_components code) as [[|first rest]|];
      [apply preserves_ret| |apply preserves_ret].
    apply (register_components_quiet lib w _ (first :: rest)). }
  intros _. apply preserves_bind; [apply install_i18n_quiet|intros _].
  apply preserves_bind; [apply preserves_ret|intros _].
  quietly.
Qed.

Lemma templateRender_quiet_unless_verbose_witness :
  warnings
    (console
       (snd (templateRender Demo.lib "welcome:en"
               {| code_source := Demo.plain;
                  code_components :=
                    Some [ {| component_name := "Foo:bar";
                              component_source := Demo.broken |} ] |}
               None None loaded_world)))
  = warnings (console loaded_world).
Proof.
  apply (templateRender_quiet_unless_verbose Demo.lib "welcome:en"
           {| code_source := Demo.plain;
              code_components :=
                Some [ {| component_name := "Foo:bar";
                          component_source := Demo.broken |} ] |}
           None None loaded_world).
  reflexivity.
Defined.

Lemma calls_only_log (I : world → Prop) `{!CallsOnly I}
    (entry : console_entry) :
  preserves I (log entry).
Proof. intros w HI. by apply (calls_only w). Qed.

Lemma calls_only_when (I : world → Prop) `{!CallsOnly I} (b : bool)
    (line : string) :
  preserves I (when b (console_warn line)).
Proof. destruct b; [apply calls_only_log; apply _|apply preserves_ret]. Qed.

Lemma calls_only_update_app (I : world → Prop) `{!CallsOnly I}
    (i : nat) (f : app → outcome app) :
  preserves I (update_app i f).
Proof.
  intros w HI. unfold update_app. destruct (apps w !! i); [|done].
  destruct (f _); [|done]. by apply (calls_only w).
Qed.

Lemma calls_only_allocate (I : world → Prop) `{!CallsOnly I} (a : app) :
  preserves I (allocate a).
Proof. intros w HI. by apply (calls_only w). Qed.

Lemma engineless_invoke (old : world) {A} (c : call) (r : outcome A) :
  engine_calls [c] = [] → preserves (engineless old) (invoke c r).
Proof.
  intros Hc w HI. unfold engineless in *. simpl.
  by rewrite engine_calls_app, Hc, app_nil_r.
Qed.

Lemma engineless_serialize (lib : Imports) (old : world) (i : nat) :
  preserves (engineless old) (serialize lib i).
Proof.
  intros w HI. unfold serialize. destruct (apps w !! i); [|done].
  by apply engineless_invoke.
Qed.

Ltac without_engine :=
  repeat first
    [ apply preserves_ret
    | apply preserves_throw
    | apply calls_only_when; apply _
    | apply calls_only_log; apply _
    | apply engineless_invoke; reflexivity
    | apply calls_only_update_app; apply _
    | apply calls_only_allocate; apply _
    | apply engineless_serialize
    | apply preserves_read_components
    | apply preserves_bind; [|intros ?]
    | apply preserves_try_catch; [|intros ?]
    | case_match ].

Lemma compile_engineless (lib : Imports) (old : world)
    (filename source : string) (verbose : bool) :
  preserves (engineless old) (compile lib filename source verbose).
Proof. unfold compile. without_engine. Qed.

Lemma loadComponent_engineless (lib : Imports) (old : world)
    (name source : string) (verbose : bool) :
  preserves (engineless old) (loadComponent lib name source verbose).
Proof.
  unfold loadComponent, console_error.
  apply preserves_try_catch; [|intros e; without_engine].
  apply preserves_bind; [apply compile_engineless|intros text].
  without_engine.
Qed.

Lemma register_components_engineless (lib : Imports) (old : world)
    (i : nat) (verbose : bool) (entries : list EmailComponent) :
  preserves (engineless old) (register_components lib i verbose entries).
Proof.
  induction entries as [|e rest IH]; simpl; [apply preserves_ret|].
  apply preserves_bind; [apply loadComponent_engineless|intros o].
  apply preserves_bind; [|intros _; apply IH].
  unfold app_component. without_engine.
Qed.

(** X12: a render whose options and configuration hold no localisation
    setting never constructs a localisation engine. *)
Theorem templateRender_without_i18n (lib : Imports) (name : string)
    (code : SourceOptions) (options : option RenderOptions)
    (config : option Options) (w : world) :
  hasI18n options config = false →
  engine_calls
    (calls (snd (templateRender lib name code options config w)))
  = engine_calls (calls w).
Proof.
  intros Hnone.
  enough (preserves (engineless w)
            (templateRender lib name code options config))
    as H by by apply H.
  unfold templateRender, templateRender_try, console_error.
  apply preserves_try_catch; [|intros e; without_engine].
  apply preserves_bind; [apply loadComponent_engineless|intros component].
  apply preserves_bind; [without_engine|intros _].
  destruct component as [component|]; [|apply preserves_throw].
  apply preserves_bind; [without_engine|intros instance].
  apply preserves_bind; [without_engine|intros app].
  apply preserves_bind; [without_engine|intros _].
  apply preserves_bind; [unfold app_use; without_engine|intros _].
  apply preserves_bind; [unfold set_performance; without_engine|intros _].
  apply preserves_bind.
  { destruct (code_components code) as [[|first rest]|];
      [apply preserves_ret| |apply preserves_ret].
    apply (register_components_engineless lib w _ _ (first :: rest)). }
  intros _. apply preserves_bind.
  { unfold install_i18n. rewrite Hnone. apply preserves_ret. }
  intros _. apply preserves_bind; [without_engine|intros _].
  without_engine.
Qed.

Lemma templateRender_without_i18n_witness :
  engine_calls
    (calls
       (snd (templateRender Demo.lib "welcome:en"
               {| code_source := Demo.plain; code_components := None |}
               None None loaded_world)))
  = engine_calls (calls loaded_world).
Proof.
  apply (templateRender_without_i18n Demo.lib "welcome:en"
           {| code_source := Demo.plain; code_components := None |}
           None None loaded_world).
  reflexivity.
Defined.



(** X14: when the root does not load, the render makes no instance and
    no further call, and the last entry it writes to the console is the
    error that names the normalised component as not found. *)
Theorem templateRender_root_not_found (lib : Imports) (name : string)
    (code : SourceOptions) (options : option RenderOptions)
    (config : option Options) (w : world) :
  let verbose := default false (config ?: config_verbose) in
  let componentName := correctName (pascalCase lib) name in
  let after := snd (templateRender lib name code options config w) in
  fst (loadComponent lib componentName (code_source code) verbose w)
  = Returned None →
  last (console after)
  = Some
      (ConsoleError "Error rendering template"
         (Error ("Component " +:+ componentName +:+ " not found")))
  ∧ apps after = apps w
  ∧ calls after
    = calls (snd (loadComponent lib componentName (code_source code)
                    verbose w)).
Proof.
  intros verbose componentName after Hroot. unfold after.
  unfold templateRender, templateRender_try.
  fold verbose. fold componentName.
  rewrite try_catch_run, bind_run.
  destruct (loadComponent_run lib componentName (code_source code) verbose w)
    as (_ & Happs & _).
  destruct (loadComponent lib componentName (code_source code) verbose w)
    as [[o|e] w1]; simpl in Hroot, Happs; simplify_eq.
  rewrite bind_run.
  destruct verbose; simpl; by rewrite last_snoc.
Qed.

Lemma templateRender_root_not_found_witness :
  last
    (console
       (snd (templateRender Demo.lib "mail:welcome.vue"
               {| code_source := Demo.broken; code_components := None |}
               None None loaded_world)))
  = Some
      (ConsoleError "Error rendering template"
         (Error ("Component " +:+ "MailWelcome" +:+ " not found"))).
Proof.
  apply (templateRender_root_not_found Demo.lib "mail:welcome.vue"
           {| code_source := Demo.broken; code_components := None |}
           None None loaded_world).
  vm_compute. reflexivity.
Defined.

(** X15: the empty string is returned exactly when a step raised: a
    render that succeeds never returns the empty string, since its
    result begins with the doctype. *)
Theorem templateRender_empty_iff_failed (lib : Imports) (name : string)
    (code : SourceOptions) (options : option RenderOptions)
    (config : option Options) (w : world) :
  fst (templateRender lib name code options config w) = Returned ""
  ↔ ∃ e, fst (templateRender_try lib name code options config w) = Raised e.
Proof.
  unfold templateRender. rewrite try_catch_run.
  destruct (templateRender_try lib name code options config w)
    as [[doc|e] w'] eqn:Htry; simpl.
  - split; [|by intros [e ?]]. intros [= ->].
    apply templateRender_try_returned in Htry
      as (instance & markup & cleaned & _ & _ & Hdoc).
    discriminate Hdoc.
  - split; [by exists e|done].
Qed.

#[export] Instance creating_calls_only (old : world) :
  CallsOnly (creating old).
Proof. intros w w' H Hc. unfold creating in *. by rewrite Hc. Qed.

Lemma creating_invoke (old : world) {A} (c : call) (r : outcome A) :
  created c = None → preserves (creating old) (invoke c r).
Proof.
  intros Hc w HI. unfold creating, create_calls in *. simpl.
  rewrite omap_app. simpl. by rewrite Hc, app_nil_r.
Qed.

Lemma creating_serialize (lib : Imports) (old : world) (i : nat) :
  preserves (creating old) (serialize lib i).
Proof.
  intros w HI. unfold serialize. destruct (apps w !! i); [|done].
  by apply creating_invoke.
Qed.

Ltac without_creation :=
  repeat first
    [ apply preserves_ret
    | apply preserves_throw
    | apply calls_only_when; apply _
    | apply calls_only_log; apply _
    | apply creating_invoke; reflexivity
    | apply calls_only_update_app; apply _
    | apply calls_only_allocate; apply _
    | apply creating_serialize
    | apply preserves_read_components
    | apply preserves_bind; [|intros ?]
    | apply preserves_try_catch; [|intros ?]
    | case_match ].

Lemma compile_creating (lib : Imports) (old : world)
    (filename source : string) (verbose : bool) :
  preserves (creating old) (compile lib filename source verbose).
Proof. unfold compile. without_creation. Qed.

Lemma loadComponent_creating (lib : Imports) (old : world)
    (name source : string) (verbose : bool) :
  preserves (creating old) (loadComponent lib name source verbose).
Proof.
  unfold loadComponent, console_error.
  apply preserves_try_catch; [|intros e; without_creation].
  apply preserves_bind; [apply compile_creating|intros text].
  without_creation.
Qed.

Lemma register_components_creating (lib : Imports) (old : world)
    (i : nat) (verbose : bool) (entries : list EmailComponent) :
  preserves (creating old) (register_components lib i verbose entries).
Proof.
  induction entries as [|e rest IH]; simpl; [apply preserves_ret|].
  apply preserves_bind; [apply loadComponent_creating|intros o].
  apply preserves_bind; [|intros _; apply IH].
  unfold app_component. without_creation.
Qed.

Lemma install_i18n_creating (lib : Imports) (old : world) (i : nat)
    (verbose : bool) (options : option RenderOptions)
    (config : option Options) :
  preserves (creating old) (install_i18n lib i verbose options config).
Proof. unfold install_i18n, app_use. without_creation. Qed.

(** X16: when the root loads, a render asks for exactly one instance,
    made from the loaded root with the properties of the call when it
    gives some, and with those of the configuration otherwise. *)
Theorem templateRender_creates_once (lib : Imports) (name : string)
    (code : SourceOptions) (options : option RenderOptions)
    (config : option Options) (w : world) (component : definition) :
  let verbose := default false (config ?: config_verbose) in
  fst (loadComponent lib (correctName (pascalCase lib) name)
         (code_source code) verbose w) = Returned (Some component) →
  create_calls
    (calls (snd (templateRender lib name code options config w)))
  = create_calls (calls w)
    ++ [(component,
         match options ?: render_props with
         | Some props => Some props
         | None => config ?: config_options ?: plugin_props
         end)].
Proof.
  intros verbose Hroot.
  assert (or_object (options ?: render_props)
            (config ?: config_options ?: plugin_props)
          = match options ?: render_props with
            | Some props => Some props
            | None => config ?: config_options ?: plugin_props
            end) as Hprops.
  { unfold or_object, truthy_object. by destruct (options ?: render_props). }
  rewrite <- Hprops. clear Hprops.
  unfold templateRender, templateRender_try. fold verbose.
  rewrite try_catch_run, bind_run.
  pose proof (loadComponent_creating lib w (correctName (pascalCase lib) name)
                (code_source code) verbose w eq_refl) as Hload.
  destruct (loadComponent lib _ (code_source code) verbose w)
    as [[o|e] w1]; simpl in Hroot, Hload; simplify_eq.
  rewrite bind_run.
  pose proof (calls_only_when (creating w) verbose
                (lightGreen lib "💌" +:+ " "
                 +:+ bold lib (blue lib "Generating output")) w1 Hload)
    as Hwhen.
  destruct (when verbose _ w1) as [[[]|e] w2] eqn:Hrun; simpl in Hwhen.
  2: { destruct verbose; discriminate Hrun. }
  set (props := or_object _ _).
  match goal with
  | |- context [bind (invoke (CallCreateApp component props) _) ?k] =>
      set (K := k)
  end.
  rewrite bind_run.
  change (invoke (CallCreateApp component props)
            (createApp lib component props) w2)
    with (createApp lib component props,
          {| console := console w2;
             calls := calls w2 ++ [CallCreateApp component props];
             apps := apps w2;
             module_components := module_components w2 |}).
  set (w3 := {| console := console w2;
                calls := calls w2 ++ [CallCreateApp component props];
                apps := apps w2;
                module_components := module_components w2 |}).
  assert (create_calls (calls w3)
          = create_calls (calls w) ++ [(component, props)]) as Hw3.
  { unfold w3, create_calls in *. simpl. rewrite omap_app. simpl.
    unfold creating, create_calls in Hwhen. by rewrite Hwhen. }
  rewrite <- Hw3.
  destruct (createApp lib component props) as [instance|e]; [|done].
  change (creating w3
            (snd (try_catch (K instance)
                    (fun error =>
                       console_error "Error rendering template" error ;;;
                       ret "") w3))).
  unfold K.
  apply preserves_try_catch; [|intros e; without_creation|done].
  apply preserves_bind; [without_creation|intros app].
  apply preserves_bind; [without_creation|intros _].
  apply preserves_bind; [unfold app_use; without_creation|intros _].
  apply preserves_bind; [unfold set_performance; without_creation|intros _].
  apply preserves_bind.
  { destruct (code_components code) as [[|first rest]|];
      [apply preserves_ret| |apply preserves_ret].
    apply (register_components_creating lib w3 _ _ (first :: rest)). }
  intros _. apply preserves_bind; [apply install_i18n_creating|intros _].
  apply preserves_bind; [without_creation|intros _].
  without_creation.
Qed.

Lemma templateRender_creates_once_witness :
  create_calls
    (calls
       (snd (templateRender Demo.lib "welcome:en"
               {| code_source := Demo.plain; code_components := None |}
               (Some {| render_props := Some {[ "name" := "Ada" ]};
                        render_i18n := None |})
               (Some {| config_verbose := None;
                        config_options :=
                          Some {| plugin_props := Some {[ "name" := "Bob" ]};
                                  plugin_i18n := None;
                                  plugin_other := [] |} |})
               loaded_world)))
  = create_calls (calls loaded_world)
    ++ [(default ∅ (loaded Demo.lib "WelcomeEn" Demo.plain false),
         Some {[ "name" := "Ada" ]})].
Proof.
  apply (templateRender_creates_once Demo.lib "welcome:en"
           {| code_source := Demo.plain; code_components := None |}
           (Some {| render_props := Some {[ "name" := "Ada" ]};
                    render_i18n := None |})
           (Some {| config_verbose := None;
                    config_options :=
                      Some {| plugin_props := Some {[ "name" := "Bob" ]};
                              plugin_i18n := None;
                              plugin_other := [] |} |})
           loaded_world).
  vm_compute. reflexivity.
Defined.

(** ** Every entry is loaded *)

Lemma parse_calls_app (l1 l2 : list call) :
  parse_calls (l1 ++ l2) = parse_calls l1 ++ parse_calls l2.
Proof. apply omap_app. Qed.

Lemma compile_parses_once (lib : Imports) (filename source : string)
    (verbose : bool) (w : world) :
  parse_calls (calls (snd (compile lib filename source verbose w)))
  = parse_calls (calls w) ++ [(source, filename)].
Proof.
  destruct verbose; run_compile; rewrite ?parse_calls_app; simpl;
    by rewrite ?app_nil_r, <- ?(assoc (++)).
Qed.

Lemma loadComponent_parses_once (lib : Imports) (name source : string)
    (verbose : bool) (w : world) :
  parse_calls (calls (snd (loadComponent lib name source verbose w)))
  = parse_calls (calls w)
    ++ [(source, correctName (pascalCase lib) name)].
Proof.
  unfold loadComponent. rewrite try_catch_run, bind_run.
  pose proof (compile_parses_once lib (correctName (pascalCase lib) name)
                source verbose w) as Hparse.
  destruct (compile lib _ source verbose w) as [[text|e] w1];
    simpl in Hparse; [|done].
  rewrite bind_run. simpl.
  destruct (importModule lib text); simpl;
    by rewrite parse_calls_app, Hparse, app_nil_r.
Qed.

(** X17: on an instance that exists, the loop loads every entry once, in
    the order of the list, whether or not earlier entries loaded: the
    parses it asks for are those of the entries' sources, one by one,
    each under the entry's normalised name normalised once more. *)
Theorem register_components_loads_each (lib : Imports) (i : nat)
    (verbose : bool) (entries : list EmailComponent) (w : world) (a : app) :
  apps w !! i = Some a →
  parse_calls
    (calls (snd (register_components lib i verbose entries w)))
  = parse_calls (calls w)
    ++ ((λ e,
          (component_source e,
           correctName (pascalCase lib)
             (correctName (pascalCase lib) (component_name e))))
          <$> entries).
Proof.
  revert w a. induction entries as [|e rest IH]; intros w a Ha.
  - simpl. by rewrite app_nil_r.
  - cbn [register_components]. rewrite bind_run.
    pose proof (loadComponent_parses_once lib
                  (correctName (pascalCase lib) (component_name e))
                  (component_source e) verbose w) as Hparse.
    destruct (loadComponent_run lib
                (correctName (pascalCase lib) (component_name e))
                (component_source e) verbose w) as (Hfst & Ha1 & _).
    destruct (loadComponent lib _ (component_source e) verbose w)
      as [[o|e0] w1]; simpl in Hparse, Hfst, Ha1; simplify_eq.
    rewrite bind_run.
    destruct (loaded lib _ (component_source e) verbose) as [d|].
    + unfold bind at 1, read_components, app_component, update_app.
      rewrite Ha1, Ha. cbn iota beta.
      erewrite IH.
      * simpl. rewrite Hparse. csimpl. by rewrite <- (assoc (++)).
      * simpl. apply list_lookup_insert_eq. by eapply lookup_lt_Some.
    + simpl. erewrite IH; [|by rewrite Ha1].
      rewrite Hparse. csimpl. by rewrite <- (assoc (++)).
Qed.

Lemma register_components_loads_each_witness :
  parse_calls
    (calls
       (snd (register_components Demo.lib 0 false
               [ {| component_name := "Foo:bar";
                    component_source := Demo.broken |};
                 {| component_name := "Foo-baz";
                    component_source := Demo.styled |} ]
               (snd (allocate Demo.blank loaded_world)))))
  = parse_calls (calls (snd (allocate Demo.blank loaded_world)))
    ++ [ (Demo.broken, "FooBar"); (Demo.styled, "FooBaz") ].
Proof.
  apply (register_components_loads_each Demo.lib 0 false
           [ {| component_name := "Foo:bar";
                component_source := Demo.broken |};
             {| component_name := "Foo-baz";
                component_source := Demo.styled |} ]
           (snd (allocate Demo.blank loaded_world)) Demo.blank).
  reflexivity.
Defined.
